(** * feereport.py: the fee report of a c-lightning node

    A shallow embedding of [feereport] (src/feereport.py) and of the Python
    primitives it relies on: [str] on integers, [str.split], true division
    of integers (a binary64 result), [int] on a float, the ["%.8f"]
    conversion, and the [timestamp] of a naive [datetime] in the zone of
    the machine.  Floats are the [spec_float] values of the Standard
    Library's IEEE 754 specification at precision 53 and [emax] 1024. *)

From Stdlib Require Import ZArith List String Ascii Bool Lia QArith.
From Stdlib Require Import Permutation.
From Stdlib Require Import SpecFloat DecimalString DecimalZ.
Import ListNotations.

Open Scope Z_scope.

(** ** Exceptions *)

(** The exceptions the body of [feereport] can raise on well-typed RPC
    answers.  A computation that may raise returns a [result]. *)
Inductive exn : Type :=
  | IndexError
  | OverflowError
  | ValueError
  | ZeroDivisionError.

Inductive result (A : Type) : Type :=
  | Ok (a : A)
  | Raise (e : exn).

Arguments Ok {A} a.
Arguments Raise {A} e.

Definition bind {A B : Type} (r : result A) (k : A -> result B) : result B :=
  match r with
  | Ok a => k a
  | Raise e => Raise e
  end.

Notation "x <- r ;; k" := (bind r (fun x => k))
  (at level 61, r at next level, right associativity).

(** ** Python primitives *)

Module Py.

(** [str(n)] for an integer [n]. *)
Definition str (n : Z) : string := NilZero.string_of_int (Z.to_int n).

(** [s.split(sep)] for a separator of one character: the pieces between
    the occurrences of [sep], empty pieces included. *)
Fixpoint split (sep : ascii) (s : string) : list string :=
  match s with
  | EmptyString => [EmptyString]
  | String c s' =>
      if Ascii.eqb c sep then EmptyString :: split sep s'
      else match split sep s' with
           | piece :: pieces => String c piece :: pieces
           | [] => [String c EmptyString]
           end
  end.

(** [l[i]] for a non-negative literal index. *)
Definition index {A : Type} (l : list A) (i : nat) : result A :=
  match nth_error l i with
  | Some a => Ok a
  | None => Raise IndexError
  end.

(** *** Floats *)

Definition float : Type := spec_float.

(** The float that carries an integer exactly.  The mantissa is not
    cut to 53 bits: the operations below round their result once, from
    the exact operands, as CPython's integer true division does. *)
Definition of_int (n : Z) : float :=
  match n with
  | Z0 => S754_zero false
  | Zpos p => S754_finite false p 0
  | Zneg p => S754_finite true p 0
  end.

(** [a / b] on integers: the quotient rounded to the nearest binary64,
    ties to even; [OverflowError] when it is too large for a float. *)
Definition truediv (a b : Z) : result float :=
  if b =? 0 then Raise ZeroDivisionError
  else match SFdiv 53 1024 (of_int a) (of_int b) with
       | S754_infinity _ => Raise OverflowError
       | q => Ok q
       end.

(** [int(x)] on a float: truncation towards zero. *)
Definition int (x : float) : result Z :=
  match x with
  | S754_zero _ => Ok 0
  | S754_finite s m e =>
      let a := if 0 <=? e then Zpos m * 2 ^ e else Zpos m / 2 ^ (- e) in
      Ok (if s then - a else a)
  | S754_infinity _ => Raise OverflowError
  | S754_nan => Raise ValueError
  end.

(** [n / d] rounded to the nearest integer, ties to the even one
    ([0 <= n], [0 < d]). *)
Definition rne_div (n d : Z) : Z :=
  let q := n / d in
  let r := n mod d in
  match 2 * r ?= d with
  | Lt => q
  | Eq => if Z.even q then q else q + 1
  | Gt => q + 1
  end.

(** The character of the decimal digit [c]. *)
Definition digit (c : Z) : ascii := ascii_of_nat (48 + Z.to_nat c).

(** [k] decimal digits of [n], most significant first, zeros included. *)
Fixpoint digits (k : nat) (n : Z) : string :=
  match k with
  | O => EmptyString
  | S k' => String (digit ((n / 10 ^ Z.of_nat k') mod 10)) (digits k' n)
  end.

(** [n / 10^k] written with [k] digits after the point. *)
Definition fixed (k : nat) (n : Z) : string :=
  (str (n / 10 ^ Z.of_nat k) ++ "." ++ digits k (n mod 10 ^ Z.of_nat k))%string.

Definition sign (s : bool) : string := if s then "-"%string else EmptyString.

(** ["%.<k>f" % x]: the value of [x] rounded to [k] decimals, ties to
    even, from the exact binary value. *)
Definition format_f (k : nat) (x : float) : string :=
  match x with
  | S754_nan => "nan"%string
  | S754_infinity s => (sign s ++ "inf")%string
  | S754_zero s => (sign s ++ fixed k 0)%string
  | S754_finite s m e =>
      let n := if 0 <=? e then Zpos m * 2 ^ e * 10 ^ Z.of_nat k
               else rne_div (Zpos m * 10 ^ Z.of_nat k) (2 ^ (- e)) in
      (sign s ++ fixed k n)%string
  end.

(** The value of a float, as a rational.  An infinity counts as the
    bound [2^1024] whose rounding gives it; no timestamp of a [datetime]
    comes near it. *)
Definition value (x : float) : Q :=
  match x with
  | S754_zero _ | S754_nan => 0%Q
  | S754_infinity s =>
      if s then inject_Z (- 2 ^ 1024) else inject_Z (2 ^ 1024)
  | S754_finite s m e =>
      let a := if s then Zneg m else Zpos m in
      if 0 <=? e then inject_Z (a * 2 ^ e) else a # Z.to_pos (2 ^ (- e))
  end.

(** *** Dates *)

(** A naive [datetime] is the reading of a wall clock, without a zone:
    a count of microseconds since 1970-01-01 00:00:00 on that clock.  A
    [timedelta] is a count of microseconds. *)
Definition datetime : Type := Z.
Definition timedelta : Type := Z.

Definition hours (h : Z) : timedelta := h * 3600 * 1000000.
Definition days (d : Z) : timedelta := d * 86400 * 1000000.

(** The zone of the machine: the offset of its wall clock from UTC, in
    seconds, at each instant, an instant being a count of seconds since
    the epoch.  An offset stays below 25 hours, the most a [TZ] setting
    can ask for. *)
Record zone : Type := {
  utcoffset : Z -> Z;
  utcoffset_range : forall u, -90000 < utcoffset u < 90000
}.

(** The zone of a machine whose clock is set to UTC. *)
Definition utc : zone :=
  {| utcoffset := fun _ => 0;
     utcoffset_range := fun _ => conj eq_refl eq_refl |}.

(** [time.localtime(u)], as a count of seconds on the wall clock. *)
Definition localtime (tz : zone) (u : Z) : Z := u + utcoffset tz u.

(** [datetime.now()] when the clock of the machine reads [clock]
    microseconds since the epoch. *)
Definition now (tz : zone) (clock : Z) : datetime :=
  localtime tz (clock / 1000000) * 1000000 + clock mod 1000000.

(** [dt._mktime()] for a naive [dt] of [t] seconds whose [fold] is 0, as
    that of a difference [dt - timedelta] is: an instant [u] with
    [localtime u = t], found from the offsets [a] and [b] of the zone
    around [t]; the earlier one when the clock was set back over [t],
    and the later of two guesses when it was set forward over [t]. *)
Definition mktime (tz : zone) (t : Z) : Z :=
  let a := localtime tz t - t in
  let u1 := t - a in
  let t1 := localtime tz u1 in
  let b := if t1 =? t then localtime tz (u1 - 86400) - (u1 - 86400)
           else t1 - u1 in
  if (t1 =? t) && (a =? b) then u1
  else
    let u2 := t - b in
    if localtime tz u2 =? t then u2
    else if t1 =? t then u1
    else Z.max u1 u2.

(** [dt.timestamp()] for a naive [dt]: the float
    [dt._mktime() + dt.microsecond / 1e6], as a rational.  The seconds
    enter the sum exactly, as they do in Python below [2^53]. *)
Definition timestamp (tz : zone) (dt : datetime) : Q :=
  let s := mktime tz (dt / 1000000) in
  let us := dt mod 1000000 in
  value (SFadd 53 1024 (of_int s)
           (SFdiv 53 1024 (of_int us) (of_int 1000000))).

(** [x > y] on timestamps. *)
Definition gt (x y : Q) : bool := negb (Qle_bool x y).

End Py.

(** ** Data model *)

(** An entry of [listfunds()["channels"]]; [funding_output] may be
    missing from the dictionary. *)
Record channel : Type := {
  short_channel_id : string;
  funding_txid : string;
  funding_output : option Z
}.

(** An entry of [listchannels(scid)["channels"]]. *)
Record detail : Type := {
  source : string;
  base_fee_millisatoshi : Z;
  fee_per_millionth : Z
}.

(** An entry of [listforwards()["forwards"]]; [resolved_time] may be
    missing from the dictionary. *)
Record forward : Type := {
  fee : Z;
  status : string;
  resolved_time : option Q
}.

(** The answers of the node to the three calls [feereport] makes. *)
Record LightningRpc : Type := {
  listfunds : list channel;
  listchannels : string -> list detail;
  listforwards : list forward
}.

(** An element of [channel_fees]. *)
Record fee_entry : Type := {
  chan_point : string;
  base_fee_msat : string;
  fee_per_mil : string;
  fee_rate : string
}.

(** The dictionary [feereport] returns. *)
Record report : Type := {
  channel_fees : list fee_entry;
  day_fee_sum : string;
  week_fee_sum : string;
  month_fee_sum : string
}.

(** ** The method *)

Section Feereport.

Variable rpc : LightningRpc.
Variable our_nodeid : string.

(** The zone of the machine the plugin runs on. *)
Variable tz : Py.zone.

(** Lines 36-42: the output index of the funding transaction. *)
Definition funding_output_str (ch : channel) : result string :=
  match funding_output ch with
  | Some n => Ok (Py.str n)
  | None => Py.index (Py.split "x" (short_channel_id ch)) 2
  end.

(** Lines 36-49: the dictionary appended for a matching [detail]. *)
Definition entry (ch : channel) (d : detail) : result fee_entry :=
  out <- funding_output_str ch ;;
  rate <- Py.truediv (fee_per_millionth d) 1000000 ;;
  Ok {| chan_point := (funding_txid ch ++ ":" ++ out)%string;
        base_fee_msat := Py.str (base_fee_millisatoshi d);
        fee_per_mil := Py.str (fee_per_millionth d);
        fee_rate := Py.format_f 8 rate |}.

(** Lines 33-51: the inner loop, left by [break] at the first match. *)
Fixpoint scan (ch : channel) (channel_detail : list detail)
  : result (option fee_entry) :=
  match channel_detail with
  | [] => Ok None
  | d :: rest =>
      if String.eqb (source d) our_nodeid
      then (e <- entry ch d ;; Ok (Some e))
      else scan ch rest
  end.

(** Lines 31-51: the outer loop, [channel_fees] being the list built
    so far. *)
Fixpoint collect (channels : list channel) (channel_fees : list fee_entry)
  : result (list fee_entry) :=
  match channels with
  | [] => Ok channel_fees
  | ch :: rest =>
      found <- scan ch (listchannels rpc (short_channel_id ch)) ;;
      collect rest (match found with
                    | Some e => channel_fees ++ [e]
                    | None => channel_fees
                    end)
  end.

(** Lines 53-55: the generator [fee_data]. *)
Fixpoint fee_data (forwards : list forward) : list (Z * Q) :=
  match forwards with
  | [] => []
  | fwd :: rest =>
      if String.eqb (status fwd) "settled" then
        match resolved_time fwd with
        | Some t => (fee fwd, t) :: fee_data rest
        | None => fee_data rest
        end
      else fee_data rest
  end.

(** The three running sums, in the order day, week, month. *)
Record sums : Type := {
  day_sum : Z;
  week_sum : Z;
  month_sum : Z
}.

(** Lines 64-71: the body of the second loop. *)
Definition tally (day_ago week_ago month_ago : Q) (acc : sums) (fwd : Z * Q)
  : sums :=
  let fee_msat := fst fwd in
  let resolved_time := snd fwd in
  if Py.gt resolved_time month_ago then
    let acc := {| day_sum := day_sum acc; week_sum := week_sum acc;
                  month_sum := month_sum acc + fee_msat |} in
    if Py.gt resolved_time week_ago then
      let acc := {| day_sum := day_sum acc;
                    week_sum := week_sum acc + fee_msat;
                    month_sum := month_sum acc |} in
      if Py.gt resolved_time day_ago then
        {| day_sum := day_sum acc + fee_msat; week_sum := week_sum acc;
           month_sum := month_sum acc |}
      else acc
    else acc
  else acc.

(** Lines 57-59: the cutoffs, [now] being the naive local time that
    [datetime.now()] returned on line 56. *)
Definition day_ago (now : Py.datetime) : Q :=
  Py.timestamp tz (now - Py.hours 24).
Definition week_ago (now : Py.datetime) : Q :=
  Py.timestamp tz (now - Py.days 7).
Definition month_ago (now : Py.datetime) : Q :=
  Py.timestamp tz (now - Py.days 30).

(** Lines 60-71: the second loop. *)
Definition fee_sums (now : Py.datetime) : sums :=
  fold_left (tally (day_ago now) (week_ago now) (month_ago now))
    (fee_data (listforwards rpc))
    {| day_sum := 0; week_sum := 0; month_sum := 0 |}.

(** Lines 75-77: [str(int(total / 1000))]. *)
Definition sat_str (total : Z) : result string :=
  q <- Py.truediv total 1000 ;;
  n <- Py.int q ;;
  Ok (Py.str n).

(** Lines 29-78. *)
Definition feereport (now : Py.datetime) : result report :=
  fees <- collect (listfunds rpc) [] ;;
  let s := fee_sums now in
  day <- sat_str (day_sum s) ;;
  week <- sat_str (week_sum s) ;;
  month <- sat_str (month_sum s) ;;
  Ok {| channel_fees := fees;
        day_fee_sum := day;
        week_fee_sum := week;
        month_fee_sum := month |}.

End Feereport.

(** ** Definitions used to state the properties *)

(** Reading a string of decimal digits, with an optional leading minus
    sign, as an integer. *)
Definition read_int (s : string) : option Z :=
  option_map Z.of_int (NilZero.int_of_string s).

(** A string without the character [c]. *)
Fixpoint lacks (c : ascii) (s : string) : Prop :=
  match s with
  | EmptyString => True
  | String c' s' => c' <> c /\ lacks c s'
  end.

(** [s] is made of decimal digits only. *)
Fixpoint all_digits (s : string) : Prop :=
  match s with
  | EmptyString => True
  | String c s' => (48 <= nat_of_ascii c <= 57)%nat /\ all_digits s'
  end.

(** The events of [listforwards] that take part in the sums, and the sum
    of the fees of those resolved after every cutoff of a list. *)
Definition qualifies (fwd : forward) : bool :=
  String.eqb (status fwd) "settled" &&
  match resolved_time fwd with Some _ => true | None => false end.

Definition after_all (cutoffs : list Q) (fwd : Z * Q) : bool :=
  forallb (fun c => Py.gt (snd fwd) c) cutoffs.

Definition fees_after (cutoffs : list Q) (data : list (Z * Q)) : Z :=
  fold_right Z.add 0 (map fst (filter (after_all cutoffs) data)).

(** [seg] is the third piece of [s] when [s] is cut at every [sep]:
    two pieces without [sep] come before it, and it runs to the next
    [sep] or to the end of [s]. *)
Definition third_segment (sep : ascii) (s seg : string) : Prop :=
  exists s0 s1 rest,
    lacks sep s0 /\ lacks sep s1 /\ lacks sep seg /\
    s = (s0 ++ String sep (s1 ++ String sep (seg ++ rest)))%string /\
    (rest = EmptyString \/ exists r, rest = String sep r).

(** [s] is a decimal numeral with a point and exactly eight digits after
    it, and its value is [q]. *)
Definition decimal8 (s : string) (q : Q) : Prop :=
  exists (ip fp : string) (i f : Z),
    s = (ip ++ String "." fp)%string /\
    ip <> EmptyString /\ all_digits ip /\
    String.length fp = 8%nat /\ all_digits fp /\
    read_int ip = Some i /\ read_int fp = Some f /\
    (inject_Z i + (f # 100000000) == q)%Q.

(** An entry of a listing that another node is the source of. *)
Definition foreign (our_nodeid : string) (d : detail) : Prop :=
  source d <> our_nodeid.

(** What one turn of the loop over the channels appends. *)
Definition appended (found : option fee_entry) : list fee_entry :=
  match found with
  | Some e => [e]
  | None => []
  end.

(** A settled forward with a resolution time. *)
Definition settled_at (f : Z) (t : Q) : forward :=
  {| fee := f; status := "settled"; resolved_time := Some t |}.

(** The channel, the policy and the record of the end-to-end example. *)
Definition example_channel : channel :=
  {| short_channel_id := "700000x1x0";
     funding_txid := "abcd";
     funding_output := None |}.

Definition example_detail (our_nodeid : string) : detail :=
  {| source := our_nodeid;
     base_fee_millisatoshi := 1000;
     fee_per_millionth := 100 |}.

Definition example_entry : fee_entry :=
  {| chan_point := "abcd:0";
     base_fee_msat := "1000";
     fee_per_mil := "100";
     fee_rate := "0.00010000" |}.

(** A listing with an entry whose source is our node. *)
Definition has_ours (our_nodeid : string) (ds : list detail) : bool :=
  existsb (fun d => String.eqb (source d) our_nodeid) ds.

(** The number of occurrences of the character [c] in [s]. *)
Fixpoint occurrences (c : ascii) (s : string) : nat :=
  match s with
  | EmptyString => O
  | String c' s' =>
      if Ascii.eqb c' c then S (occurrences c s') else occurrences c s'
  end.

(** The events resolved after [lo] and not after [hi], and the sum of
    their fees. *)
Definition in_window (lo hi : Q) (fwd : Z * Q) : bool :=
  Py.gt (snd fwd) lo && negb (Py.gt (snd fwd) hi).

Definition fees_in (lo hi : Q) (data : list (Z * Q)) : Z :=
  fold_right Z.add 0 (map fst (filter (in_window lo hi) data)).

(** The sum of the fees of all the forwards, whatever their status. *)
Definition total_fees (forwards : list forward) : Z :=
  fold_right Z.add 0 (map fee forwards).

(** The sums of two lists of forwards, added. *)
Definition add_sums (s1 s2 : sums) : sums :=
  {| day_sum := day_sum s1 + day_sum s2;
     week_sum := week_sum s1 + week_sum s2;
     month_sum := month_sum s1 + month_sum s2 |}.

(** *** The position of a quotient between two integers *)

(** The rounding information the Standard Library's [SFdiv] keeps for
    [n / d]: the integer part, and where the remainder lies with respect
    to one half. *)
Definition loc_of (r d : Z) : location :=
  if r =? 0 then loc_Exact else loc_Inexact (2 * r ?= d).

Definition locate (n d : Z) : shr_record :=
  shr_record_of_loc (n / d) (loc_of (n mod d) d).

(** The binary64 quotient of two positive integers [a] and [b]:
    [a * 2^qshift / (b * 2^qdrop)] has 53 bits before rounding, [qmant]
    is that quotient rounded, and the float is [qmant * 2^(qdrop - qshift)]
    once [normal] has brought a mantissa of [2^53] back to 53 bits and
    checked the exponent range. *)
Definition qshift (a b : positive) : Z :=
  Z.max (53 + Zpos (digits2_pos b) - Zpos (digits2_pos a)) 0.

Definition qdrop (a b : positive) : Z :=
  Zdigits2 (Zpos a * 2 ^ qshift a b / Zpos b) - 53.

Definition qmant (a b : positive) : Z :=
  Py.rne_div (Zpos a * 2 ^ qshift a b) (Zpos b * 2 ^ qdrop a b).

Definition normal (s : bool) (m e : Z) : spec_float :=
  let '(m', e') := if m =? 2 ^ 53 then (2 ^ 52, e + 1) else (m, e) in
  if e' <=? 971 then S754_finite s (Z.to_pos m') e' else S754_infinity s.

(** The integer [int(a / b)] for positive integers, when the quotient
    fits a float. *)
Definition quot_int (a b : positive) : Z :=
  qmant a b * 2 ^ qdrop a b / 2 ^ qshift a b.

(** *** The binary64 sum of an integer and a fraction *)

(** A non-negative integer cut to 53 significant bits, to the nearest,
    ties to even. *)
Definition round53 (m : Z) : Z :=
  let k := Z.max (Zdigits2 m - 53) 0 in Py.rne_div m (2 ^ k) * 2 ^ k.

(** The binary64 nearest to [n * 2^e], in units of [2^e]. *)
Definition nearest53 (e n : Z) : Z :=
  Z.sgn n * Z.min (round53 (Z.abs n)) (2 ^ (1024 - e)).

(** [n * 2^e] for an exponent that is not positive. *)
Definition scaled (n e : Z) : Q := n # Z.to_pos (2 ^ (- e)).

(** *** A zone with summer time *)



(** * Properties *)

(** Comparisons in the hypotheses, as inequalities. *)
Ltac compare_hyps :=
  repeat match goal with
         | H : (_ ?= _) = Eq |- _ => apply Z.compare_eq_iff in H
         | H : (?a ?= ?b) = Lt |- _ => change (a < b) in H
         | H : (?a ?= ?b) = Gt |- _ => change (a > b) in H
         end.

(** ** Integers and powers of two *)

Section Arith.

Lemma pow2_pos k : 0 <= k -> 0 < 2 ^ k.
Proof. intros. apply Z.pow_pos_nonneg; lia. Qed.

Lemma pow2_xO p : 2 ^ Z.pos p~0 = 2 ^ Z.pos p * 2 ^ Z.pos p.
Proof. rewrite <- Z.pow_add_r by lia. f_equal. lia. Qed.

Lemma pow2_xI p : 2 ^ Z.pos p~1 = 2 * (2 ^ Z.pos p * 2 ^ Z.pos p).
Proof. rewrite <- Z.pow_add_r, <- Z.pow_succ_r by lia. f_equal. lia. Qed.

Lemma pow2_le_inv j k : 0 <= k -> 2 ^ j < 2 ^ k -> j < k.
Proof.
  intros Hk H. destruct (Z_lt_le_dec j k) as [L|L]; [exact L|].
  assert (2 ^ k <= 2 ^ j) by (apply Z.pow_le_mono_r; lia). lia.
Qed.

Lemma div_eucl_div_mod n d : Z.div_eucl n d = (n / d, n mod d).
Proof. unfold Z.div, Z.modulo. destruct (Z.div_eucl n d); reflexivity. Qed.

Lemma digits2_pos_size p : digits2_pos p = Pos.size p.
Proof. induction p; simpl; congruence. Qed.

Lemma Zdigits2_log2 p : Zdigits2 (Zpos p) = Z.log2 (Zpos p) + 1.
Proof.
  unfold Zdigits2. rewrite digits2_pos_size.
  destruct p; simpl; try reflexivity; rewrite Pos.add_1_r; reflexivity.
Qed.

Lemma Zdigits2_bounds z :
  0 < z -> 2 ^ (Zdigits2 z - 1) <= z < 2 ^ Zdigits2 z.
Proof.
  destruct z as [|p|p]; try lia. intros _.
  rewrite Zdigits2_log2.
  replace (Z.log2 (Z.pos p) + 1 - 1) with (Z.log2 (Z.pos p)) by lia.
  replace (Z.log2 (Z.pos p) + 1) with (Z.succ (Z.log2 (Z.pos p))) by lia.
  apply Z.log2_spec. lia.
Qed.

Lemma Zdigits2_eq z k :
  0 <= k -> 2 ^ k <= z < 2 ^ (k + 1) -> Zdigits2 z = k + 1.
Proof.
  intros Hk Hz. pose proof (pow2_pos k Hk).
  destruct z as [|p|p]; try lia.
  rewrite Zdigits2_log2. f_equal.
  apply Z.log2_unique; [lia|].
  replace (Z.succ k) with (k + 1) by lia. exact Hz.
Qed.

Lemma digits2_pos_le a b :
  (a <= b)%positive -> Zpos (digits2_pos a) <= Zpos (digits2_pos b).
Proof.
  intros H. change (Zdigits2 (Zpos a) <= Zdigits2 (Zpos b)).
  rewrite !Zdigits2_log2.
  apply Z.add_le_mono_r, Z.log2_le_mono. lia.
Qed.

End Arith.

(** ** Rounding to the nearest integer, ties to even *)

Section RneDiv.

Lemma rne_div_range n d lo hi :
  0 < d -> lo * d <= n < hi * d -> lo <= Py.rne_div n d <= hi.
Proof.
  intros Hd H.
  pose proof (Z.div_mod n d ltac:(lia)) as E.
  pose proof (Z.mod_pos_bound n d ltac:(lia)) as B.
  assert (lo <= n / d) by (apply Z.div_le_lower_bound; lia).
  assert (n / d < hi) by (apply Z.div_lt_upper_bound; lia).
  unfold Py.rne_div.
  destruct (2 * (n mod d) ?= d); try lia. destruct (Z.even (n / d)); lia.
Qed.

(** The rounded quotient is within one half of the exact one. *)
Lemma rne_div_error n d :
  0 < d -> 2 * Z.abs (Py.rne_div n d * d - n) <= d.
Proof.
  intros Hd.
  pose proof (Z.div_mod n d ltac:(lia)) as E.
  pose proof (Z.mod_pos_bound n d ltac:(lia)) as B.
  assert (Hlo : n / d * d - n = - (n mod d)) by lia.
  assert (Hhi : (n / d + 1) * d - n = d - n mod d) by lia.
  unfold Py.rne_div.
  destruct (2 * (n mod d) ?= d) eqn:C; compare_hyps;
    try destruct (Z.even (n / d)); rewrite ?Hlo, ?Hhi; lia.
Qed.


Lemma rne_div_scale c n d :
  0 < c -> 0 < d -> Py.rne_div (c * n) (c * d) = Py.rne_div n d.
Proof.
  intros Hc Hd. unfold Py.rne_div.
  rewrite Z.div_mul_cancel_l, Z.mul_mod_distr_l by lia.
  replace (2 * (c * (n mod d))) with (c * (2 * (n mod d))) by ring.
  rewrite <- Zmult_compare_compat_l by lia. reflexivity.
Qed.

Lemma rne_div_mono n n' d :
  0 < d -> n <= n' -> Py.rne_div n d <= Py.rne_div n' d.
Proof.
  intros Hd Hn.
  pose proof (Z.div_mod n d ltac:(lia)) as E.
  pose proof (Z.mod_pos_bound n d ltac:(lia)) as B.
  pose proof (Z.div_mod n' d ltac:(lia)) as E'.
  pose proof (Z.mod_pos_bound n' d ltac:(lia)) as B'.
  pose proof (Z.div_le_mono n n' d Hd Hn) as Q.
  unfold Py.rne_div.
  destruct (Z.eq_dec (n / d) (n' / d)) as [Heq|Hne].
  - rewrite <- Heq in *.
    destruct (2 * (n mod d) ?= d) eqn:C; destruct (2 * (n' mod d) ?= d) eqn:C';
      compare_hyps; try destruct (Z.even (n / d)); lia.
  - destruct (2 * (n mod d) ?= d); destruct (2 * (n' mod d) ?= d);
      try destruct (Z.even (n / d)); try destruct (Z.even (n' / d)); lia.
Qed.

End RneDiv.

(** ** The binary64 quotient of two integers *)

Section Locate.

Lemma new_location_loc_of d r :
  0 < d -> 0 <= r < d -> new_location d r = loc_of r d.
Proof.
  intros Hd Hr.
  unfold new_location, new_location_even, new_location_odd, loc_of.
  destruct (Z.even d) eqn:Hev; destruct (r =? 0) eqn:Hr0; try reflexivity.
  f_equal.
  assert (Hodd : Z.odd d = true) by (rewrite <- Z.negb_even, Hev; reflexivity).
  apply Z.odd_spec in Hodd. destruct Hodd as [c Hc].
  destruct (2 * r + 1 ?= d) eqn:C1; destruct (2 * r ?= d) eqn:C2;
    try reflexivity; compare_hyps; lia.
Qed.

Lemma shr_1_spec m r s :
  0 <= m ->
  shr_1 {| shr_m := m; shr_r := r; shr_s := s |} =
  {| shr_m := m / 2; shr_r := Z.odd m; shr_s := r || s |}.
Proof.
  intros Hm. destruct m as [|p|p]; try lia.
  - reflexivity.
  - assert (D1 : forall q, Z.pos q~1 / 2 = Z.pos q).
    { intros q. symmetry. apply Z.div_unique with (r := 1); lia. }
    assert (D0 : forall q, Z.pos q~0 / 2 = Z.pos q).
    { intros q. symmetry. apply Z.div_unique with (r := 0); lia. }
    destruct p; unfold shr_1; rewrite ?D1, ?D0; reflexivity.
Qed.

(** One step of [shr] halves the scale at which the quotient is seen. *)
Lemma shr_1_locate n d :
  0 <= n -> 0 < d -> shr_1 (locate n d) = locate n (2 * d).
Proof.
  intros Hn Hd. unfold locate.
  pose proof (Z.div_mod n d ltac:(lia)) as E.
  pose proof (Z.mod_pos_bound n d Hd) as B.
  pose proof (Z.div_pos n d Hn Hd) as Q.
  set (q := n / d) in *. set (r := n mod d) in *.
  pose proof (Z.div_mod q 2 ltac:(lia)) as E2.
  pose proof (Z.mod_pos_bound q 2 ltac:(lia)) as B2.
  assert (Hq2 : n / (2 * d) = q / 2).
  { symmetry. apply Z.div_unique with (r := (q mod 2) * d + r); nia. }
  assert (Hr2 : n mod (2 * d) = (q mod 2) * d + r).
  { symmetry. apply Z.mod_unique with (q := q / 2); nia. }
  rewrite Hq2, Hr2.
  assert (Hodd : Z.odd q = (q mod 2 =? 1)).
  { rewrite Zmod_odd. destruct (Z.odd q); reflexivity. }
  assert (Hshr : forall rr ss,
    shr_1 {| shr_m := q; shr_r := rr; shr_s := ss |} =
    {| shr_m := q / 2; shr_r := (q mod 2 =? 1); shr_s := rr || ss |}).
  { intros. rewrite shr_1_spec by lia. rewrite Hodd. reflexivity. }
  unfold loc_of.
  destruct (r =? 0) eqn:R0.
  - apply Z.eqb_eq in R0. simpl shr_record_of_loc at 1. rewrite Hshr.
    destruct (q mod 2 =? 1) eqn:O.
    + apply Z.eqb_eq in O. rewrite O, R0.
      replace (1 * d + 0 =? 0) with false
        by (symmetry; apply Z.eqb_neq; lia).
      replace (2 * (1 * d + 0) ?= 2 * d) with Eq
        by (symmetry; apply Z.compare_eq_iff; lia).
      reflexivity.
    + apply Z.eqb_neq in O. assert (Hz : q mod 2 = 0) by lia.
      rewrite Hz, R0. reflexivity.
  - apply Z.eqb_neq in R0.
    assert (Hs : forall c, shr_1 (shr_record_of_loc q (loc_Inexact c)) =
      {| shr_m := q / 2; shr_r := (q mod 2 =? 1); shr_s := true |}).
    { intros c. destruct c; simpl shr_record_of_loc; rewrite Hshr; f_equal;
        destruct (q mod 2 =? 1); reflexivity. }
    rewrite Hs.
    replace (q mod 2 * d + r =? 0) with false
      by (symmetry; apply Z.eqb_neq; nia).
    destruct (q mod 2 =? 1) eqn:O.
    + apply Z.eqb_eq in O. rewrite O.
      replace (2 * (1 * d + r) ?= 2 * d) with Gt
        by (symmetry; apply Z.compare_gt_iff; lia).
      reflexivity.
    + apply Z.eqb_neq in O. assert (Hz : q mod 2 = 0) by lia. rewrite Hz.
      replace (2 * (0 * d + r) ?= 2 * d) with Lt
        by (symmetry; apply Z.compare_lt_iff; lia).
      reflexivity.
Qed.

Lemma iter_pos_shr_1_locate p : forall n d,
  0 <= n -> 0 < d ->
  iter_pos shr_1 p (locate n d) = locate n (d * 2 ^ Zpos p).
Proof.
  induction p as [p IH|p IH|]; intros n d Hn Hd; simpl iter_pos.
  - pose proof (pow2_pos (Z.pos p) ltac:(lia)).
    rewrite shr_1_locate, IH, IH by (try apply Z.mul_pos_pos; lia).
    f_equal. rewrite pow2_xI. ring.
  - pose proof (pow2_pos (Z.pos p) ltac:(lia)).
    rewrite IH, IH by (try apply Z.mul_pos_pos; lia).
    f_equal. rewrite pow2_xO. ring.
  - rewrite shr_1_locate by lia. f_equal. rewrite Z.pow_1_r. ring.
Qed.

Lemma shr_locate n d e k :
  0 <= n -> 0 < d -> 0 <= k ->
  shr (locate n d) e k = (locate n (d * 2 ^ k), e + k).
Proof.
  intros Hn Hd Hk. destruct k as [|p|p]; try lia; unfold shr.
  - rewrite Z.pow_0_r, Z.mul_1_r, Z.add_0_r. reflexivity.
  - rewrite iter_pos_shr_1_locate by lia. reflexivity.
Qed.

Lemma shr_m_locate n d : shr_m (locate n d) = n / d.
Proof. unfold locate. destruct (loc_of (n mod d) d) as [|[]]; reflexivity. Qed.

Lemma loc_of_shr_record_locate n d :
  loc_of_shr_record (locate n d) = loc_of (n mod d) d.
Proof. unfold locate. destruct (loc_of (n mod d) d) as [|[]]; reflexivity. Qed.

Lemma round_nearest_even_locate n d :
  0 < d ->
  round_nearest_even (shr_m (locate n d)) (loc_of_shr_record (locate n d)) =
  Py.rne_div n d.
Proof.
  intros Hd. rewrite shr_m_locate, loc_of_shr_record_locate.
  unfold loc_of, Py.rne_div, round_nearest_even.
  pose proof (Z.mod_pos_bound n d Hd) as B.
  destruct (n mod d =? 0) eqn:R0.
  - apply Z.eqb_eq in R0. rewrite R0.
    replace (2 * 0 ?= d) with Lt by (symmetry; apply Z.compare_lt_iff; lia).
    reflexivity.
  - destruct (2 * (n mod d) ?= d); reflexivity.
Qed.

Lemma fexp64 x : fexp 53 1024 x = Z.max (x - 53) (-1074).
Proof. reflexivity. Qed.

(** [shr_fexp] brings a quotient of at least 53 bits down to 53. *)
Lemma shr_fexp_locate n d e :
  0 <= n -> 0 < d -> 2 ^ 52 <= n / d -> -1074 <= e ->
  shr_fexp 53 1024 (n / d) e (loc_of (n mod d) d) =
  (locate n (d * 2 ^ (Zdigits2 (n / d) - 53)), e + (Zdigits2 (n / d) - 53)).
Proof.
  intros Hn Hd Hq He.
  unfold shr_fexp. fold (locate n d).
  pose proof (Zdigits2_bounds (n / d) ltac:(lia)) as Bq.
  assert (Hdq : 52 < Zdigits2 (n / d)).
  { apply pow2_le_inv; [|lia].
    destruct (Z_lt_le_dec (Zdigits2 (n / d)) 0) as [L|L]; [|exact L].
    rewrite (Z.pow_neg_r 2 _ L) in Bq. lia. }
  rewrite fexp64.
  replace (Z.max (Zdigits2 (n / d) + e - 53) (-1074) - e)
    with (Zdigits2 (n / d) - 53) by lia.
  apply shr_locate; lia.
Qed.

End Locate.

Section Quotient.

Variables a b : positive.

Lemma qshift_nonneg : 0 <= qshift a b.
Proof. unfold qshift. lia. Qed.

Lemma qshift_lower : 2 ^ 52 * Zpos b <= Zpos a * 2 ^ qshift a b.
Proof.
  pose proof (Zdigits2_bounds (Zpos a) ltac:(lia)) as Ba.
  pose proof (Zdigits2_bounds (Zpos b) ltac:(lia)) as Bb.
  simpl Zdigits2 in *.
  set (da := Zpos (digits2_pos a)) in *. set (db := Zpos (digits2_pos b)) in *.
  assert (1 <= da) by (subst da; lia). assert (1 <= db) by (subst db; lia).
  assert (Hs : 52 + db <= da - 1 + qshift a b)
    by (unfold qshift; fold da db; lia).
  pose proof qshift_nonneg.
  assert (Hp : 2 ^ (52 + db) <= 2 ^ (da - 1 + qshift a b))
    by (apply Z.pow_le_mono_r; lia).
  rewrite !Z.pow_add_r in Hp by lia.
  pose proof (pow2_pos (qshift a b) ltac:(lia)).
  assert (0 < 2 ^ 52) by reflexivity.
  nia.
Qed.

Lemma qdrop_bounds :
  0 <= qdrop a b /\
  2 ^ 52 * (Zpos b * 2 ^ qdrop a b) <= Zpos a * 2 ^ qshift a b
    < 2 ^ 53 * (Zpos b * 2 ^ qdrop a b).
Proof.
  pose proof qshift_lower as Hq.
  set (n := Zpos a * 2 ^ qshift a b) in *.
  assert (Hq0 : 2 ^ 52 <= n / Zpos b) by (apply Z.div_le_lower_bound; lia).
  pose proof (Zdigits2_bounds (n / Zpos b) ltac:(lia)) as Bq.
  unfold qdrop. fold n. set (dq := Zdigits2 (n / Z.pos b)) in *.
  assert (Hdq : 52 < dq).
  { apply pow2_le_inv; [|lia].
    destruct (Z_lt_le_dec dq 0) as [L|L]; [|exact L].
    rewrite (Z.pow_neg_r 2 _ L) in Bq. lia. }
  split; [lia|].
  replace (2 ^ 52 * (Z.pos b * 2 ^ (dq - 53))) with (2 ^ (dq - 1) * Z.pos b).
  2:{ replace (dq - 1) with (52 + (dq - 53)) by lia.
      rewrite Z.pow_add_r by lia. ring. }
  replace (2 ^ 53 * (Z.pos b * 2 ^ (dq - 53))) with (2 ^ dq * Z.pos b).
  2:{ replace dq with (53 + (dq - 53)) at 1 by lia.
      rewrite Z.pow_add_r by lia. ring. }
  pose proof (Z.div_mod n (Zpos b) ltac:(lia)) as E.
  pose proof (Z.mod_pos_bound n (Zpos b) ltac:(lia)) as B.
  nia.
Qed.

Lemma qmant_bounds : 2 ^ 52 <= qmant a b <= 2 ^ 53.
Proof.
  destruct qdrop_bounds as [Hk Hb].
  apply rne_div_range; [|lia].
  pose proof (pow2_pos (qdrop a b) Hk). lia.
Qed.

(** What [SFdiv] computes on two positive integers, signs apart. *)
Lemma SFdiv_pos sa sb :
  Zpos (digits2_pos b) <= 1000 ->
  SFdiv 53 1024 (S754_finite sa a 0) (S754_finite sb b 0) =
  normal (xorb sa sb) (qmant a b) (qdrop a b - qshift a b).
Proof.
  intros Hb.
  destruct qdrop_bounds as [Hk Hkb].
  pose proof qshift_lower as Hq.
  pose proof qmant_bounds as Hm.
  pose proof qshift_nonneg as Hs.
  unfold SFdiv, SFdiv_core_binary.
  rewrite fexp64. simpl Zdigits2.
  set (da := Zpos (digits2_pos a)) in *. set (db := Zpos (digits2_pos b)) in *.
  assert (1 <= da) by (subst da; lia). assert (1 <= db) by (subst db; lia).
  assert (He : Z.min (Z.max (da + 0 - (db + 0) - 53) (-1074)) (0 - 0)
               = - qshift a b).
  { unfold qshift. fold da db. lia. }
  rewrite He.
  replace (0 - 0 - - qshift a b) with (qshift a b) by lia.
  set (n := Zpos a * 2 ^ qshift a b) in *.
  assert (Hn : match qshift a b with
               | Z0 => Zpos a
               | Zpos _ => Z.shiftl (Zpos a) (qshift a b)
               | Zneg _ => 0
               end = n).
  { subst n. destruct (qshift a b) eqn:E;
      [ rewrite Z.pow_0_r; lia
      | rewrite Z.shiftl_mul_pow2 by lia; reflexivity
      | lia ]. }
  rewrite Hn, div_eucl_div_mod.
  assert (Hq0 : 2 ^ 52 <= n / Zpos b) by (apply Z.div_le_lower_bound; lia).
  assert (Hn0 : 0 <= n) by lia.
  assert (Hs' : -1074 <= - qshift a b) by (unfold qshift; fold da db; lia).
  unfold binary_round_aux.
  rewrite new_location_loc_of by (try apply Z.mod_pos_bound; lia).
  rewrite shr_fexp_locate; [| lia ..].
  change (Zdigits2 (n / Z.pos b) - 53) with (qdrop a b).
  pose proof (pow2_pos (qdrop a b) Hk) as Hp.
  rewrite round_nearest_even_locate; [| lia].
  change (Py.rne_div n (Z.pos b * 2 ^ qdrop a b)) with (qmant a b).
  set (m := qmant a b) in *. set (e := - qshift a b + qdrop a b).
  assert (Hebound : -1074 <= e) by (subst e; lia).
  replace (qdrop a b - qshift a b) with e by (subst e; lia).
  replace m with (m / 1) at 1 by apply Z.div_1_r.
  replace loc_Exact with (loc_of (m mod 1) 1)
    by (rewrite Z.mod_1_r; reflexivity).
  rewrite shr_fexp_locate; [| rewrite ?Z.div_1_r; lia ..].
  rewrite Z.div_1_r, shr_m_locate, Z.mul_1_l.
  unfold normal.
  destruct (m =? 2 ^ 53) eqn:E53.
  - apply Z.eqb_eq in E53. rewrite E53. reflexivity.
  - apply Z.eqb_neq in E53.
    rewrite (Zdigits2_eq m 52) by lia.
    replace (52 + 1 - 53) with 0 by lia.
    rewrite Z.pow_0_r, Z.div_1_r, Z.add_0_r.
    destruct m; try lia. reflexivity.
Qed.

End Quotient.

(** ** True division and the conversions of its result *)

Section TrueDiv.

Lemma normal_cases s m e :
  2 ^ 52 <= m <= 2 ^ 53 ->
  exists m' e',
    (e' = e /\ Zpos m' = m \/ e' = e + 1 /\ 2 * Zpos m' = m) /\
    normal s m e = if e' <=? 971 then S754_finite s m' e'
                   else S754_infinity s.
Proof.
  intros Hm. unfold normal.
  destruct (m =? 2 ^ 53) eqn:E.
  - apply Z.eqb_eq in E. exists (Z.to_pos (2 ^ 52)), (e + 1).
    split; [right; split; [reflexivity | rewrite E; reflexivity] | reflexivity].
  - exists (Z.to_pos m), e.
    split; [left; split; [reflexivity | apply Z2Pos.id; lia] | reflexivity].
Qed.

(** Truncating [m * 2^(k - s)] is a division of integers. *)
Lemma trunc_shift m k s :
  0 <= k -> 0 <= s ->
  (if 0 <=? k - s then m * 2 ^ (k - s) else m / 2 ^ (- (k - s))) =
  m * 2 ^ k / 2 ^ s.
Proof.
  intros Hk Hs. pose proof (pow2_pos s Hs). pose proof (pow2_pos k Hk).
  destruct (0 <=? k - s) eqn:E.
  - apply Z.leb_le in E.
    replace k with ((k - s) + s) at 2 by lia.
    rewrite Z.pow_add_r, Z.mul_assoc, Z.div_mul by lia. reflexivity.
  - apply Z.leb_gt in E.
    replace s with ((- (k - s)) + k) at 2 by lia.
    rewrite Z.pow_add_r by lia.
    rewrite Z.div_mul_cancel_r by lia. reflexivity.
Qed.

Lemma int_normal (a b : positive) s q :
  normal s (qmant a b) (qdrop a b - qshift a b) = q ->
  q = S754_infinity s \/
  Py.int q = Ok (if s then - quot_int a b else quot_int a b).
Proof.
  intros Hq.
  destruct (qdrop_bounds a b) as [Hk _].
  pose proof (qshift_nonneg a b) as Hs.
  destruct (normal_cases s _ (qdrop a b - qshift a b) (qmant_bounds a b))
    as (m' & e' & Hme & Hn).
  subst q. rewrite Hn.
  destruct (e' <=? 971); [right | left; reflexivity].
  unfold Py.int. cbv zeta. f_equal.
  assert (E : (if 0 <=? e' then Z.pos m' * 2 ^ e'
               else Z.pos m' / 2 ^ (- e')) = quot_int a b).
  { unfold quot_int. destruct Hme as [[-> <-] | [-> <-]].
    - apply trunc_shift; lia.
    - replace (qdrop a b - qshift a b + 1)
        with (qdrop a b + 1 - qshift a b) by lia.
      rewrite trunc_shift by lia.
      rewrite Z.pow_add_r, Z.pow_1_r by lia. f_equal. ring. }
  rewrite E. reflexivity.
Qed.

End TrueDiv.

(** ** The binary64 sum of an integer and a fraction *)

Section Rounding.

(** [binary_round_aux] on a quotient of at least 53 bits. *)
Lemma binary_round_aux_locate sx n d e :
  0 <= n -> 0 < d -> 2 ^ 52 <= n / d -> -1074 <= e ->
  binary_round_aux 53 1024 sx (n / d) e (loc_of (n mod d) d) =
  normal sx (Py.rne_div n (d * 2 ^ (Zdigits2 (n / d) - 53)))
    (e + (Zdigits2 (n / d) - 53)).
Proof.
  intros Hn Hd Hq He.
  pose proof (Zdigits2_bounds (n / d) ltac:(lia)) as Bq.
  set (k := Zdigits2 (n / d) - 53) in *.
  assert (Hk : 0 <= k).
  { subst k. assert (52 < Zdigits2 (n / d)); [|lia].
    apply pow2_le_inv; [|lia].
    destruct (Z_lt_le_dec (Zdigits2 (n / d)) 0) as [L|L]; [|exact L].
    rewrite (Z.pow_neg_r 2 _ L) in Bq. lia. }
  pose proof (pow2_pos k Hk) as Hp.
  assert (Hm : 2 ^ 52 <= Py.rne_div n (d * 2 ^ k) <= 2 ^ 53).
  { apply rne_div_range; [nia|].
    pose proof (Z.div_mod n d ltac:(lia)) as E.
    pose proof (Z.mod_pos_bound n d ltac:(lia)) as B.
    replace (Zdigits2 (n / d) - 1) with (52 + k) in Bq by (subst k; lia).
    replace (Zdigits2 (n / d)) with (53 + k) in Bq by (subst k; lia).
    rewrite !Z.pow_add_r in Bq by lia. nia. }
  unfold binary_round_aux.
  rewrite shr_fexp_locate; [| lia ..]. fold k.
  rewrite round_nearest_even_locate by nia.
  set (m := Py.rne_div n (d * 2 ^ k)) in *.
  replace m with (m / 1) at 1 by apply Z.div_1_r.
  replace loc_Exact with (loc_of (m mod 1) 1)
    by (rewrite Z.mod_1_r; reflexivity).
  rewrite shr_fexp_locate; [| rewrite ?Z.div_1_r; lia ..].
  rewrite Z.div_1_r, shr_m_locate, Z.mul_1_l.
  unfold normal.
  destruct (m =? 2 ^ 53) eqn:E53.
  - apply Z.eqb_eq in E53. rewrite E53. reflexivity.
  - apply Z.eqb_neq in E53.
    rewrite (Zdigits2_eq m 52) by lia.
    replace (52 + 1 - 53) with 0 by lia.
    rewrite Z.pow_0_r, Z.div_1_r, Z.add_0_r.
    destruct m; try lia. reflexivity.
Qed.

Lemma iter_xO p d : Zpos (Pos.iter xO p d) = Zpos p * 2 ^ Zpos d.
Proof.
  change (Pos.iter xO p d) with (shift_pos d p).
  rewrite shift_pos_correct. change (Z.pow_pos 2 d) with (2 ^ Zpos d). ring.
Qed.

(** [binary_round] on an integer mantissa: the mantissa is brought to 53
    bits, by a shift to the left or by rounding. *)
Lemma binary_round_normal sx p e :
  -1000 <= e ->
  let d := Zdigits2 (Zpos p) in
  binary_round 53 1024 sx p e =
  normal sx (Py.rne_div (Zpos p * 2 ^ Z.max (53 - d) 0) (2 ^ Z.max (d - 53) 0))
    (e + d - 53).
Proof.
  intros He d.
  pose proof (Zdigits2_bounds (Zpos p) ltac:(lia)) as Bp. fold d in Bp.
  assert (Hd : 1 <= d) by (subst d; simpl; lia).
  unfold binary_round, shl_align. rewrite fexp64.
  change (Z.pos (digits2_pos p)) with d.
  replace (Z.max (d + e - 53) (-1074) - e) with (d - 53) by lia.
  destruct (d - 53) as [|k|k] eqn:Ek.
  - replace (Z.max (53 - d) 0) with 0 by lia.
    replace (Z.max (d + e - 53) (-1074)) with e by lia.
    rewrite Z.pow_0_r, Z.mul_1_r.
    replace (Z.pos p) with (Z.pos p / 1) at 1 by apply Z.div_1_r.
    replace loc_Exact with (loc_of (Z.pos p mod 1) 1)
      by (rewrite Z.mod_1_r; reflexivity).
    assert (H52 : 2 ^ 52 <= Z.pos p).
    { replace (d - 1) with 52 in Bp by lia. lia. }
    rewrite binary_round_aux_locate; [| rewrite ?Z.div_1_r; lia ..].
    rewrite Z.div_1_r. fold d. rewrite Ek, Z.mul_1_l, Z.pow_0_r.
    f_equal. lia.
  - replace (Z.max (53 - d) 0) with 0 by lia.
    rewrite Z.pow_0_r, Z.mul_1_r.
    replace (Z.pos p) with (Z.pos p / 1) at 1 by apply Z.div_1_r.
    replace loc_Exact with (loc_of (Z.pos p mod 1) 1)
      by (rewrite Z.mod_1_r; reflexivity).
    assert (H52 : 2 ^ 52 <= Z.pos p).
    { assert (2 ^ 52 <= 2 ^ (d - 1)) by (apply Z.pow_le_mono_r; lia). lia. }
    rewrite binary_round_aux_locate; [| rewrite ?Z.div_1_r; lia ..].
    rewrite Z.div_1_r. fold d. rewrite Ek, Z.mul_1_l.
    replace (Z.max (Z.pos k) 0) with (Z.pos k) by lia.
    f_equal. lia.
  - replace (Z.max (53 - d) 0) with (Zpos k) by lia.
    replace (Z.max (Z.neg k) 0) with 0 by lia.
    set (mz := Pos.iter xO p k).
    assert (Hmz : Zpos mz = Zpos p * 2 ^ Zpos k) by apply iter_xO.
    pose proof (pow2_pos (Zpos k) ltac:(lia)) as Hpk.
    assert (Hb : 2 ^ 52 <= Zpos mz < 2 ^ (52 + 1)).
    { rewrite Hmz.
      replace 52 with (d - 1 + Zpos k) at 1 by lia.
      replace (52 + 1) with (d + Zpos k) by lia.
      rewrite !Z.pow_add_r by lia. nia. }
    replace (Z.pos mz) with (Z.pos mz / 1) at 1 by apply Z.div_1_r.
    replace loc_Exact with (loc_of (Z.pos mz mod 1) 1)
      by (rewrite Z.mod_1_r; reflexivity).
    rewrite binary_round_aux_locate; [| rewrite ?Z.div_1_r; lia ..].
    rewrite Z.div_1_r, (Zdigits2_eq (Zpos mz) 52) by lia.
    replace (52 + 1 - 53) with 0 by lia.
    rewrite Z.pow_0_r, Z.mul_1_l, Hmz. f_equal. lia.
Qed.


Lemma to_pos_pow2 k : 0 <= k -> Zpos (Z.to_pos (2 ^ k)) = 2 ^ k.
Proof. intros Hk. apply Z2Pos.id, pow2_pos, Hk. Qed.

Lemma scaled_le n n' e : n <= n' -> (scaled n e <= scaled n' e)%Q.
Proof.
  intros H. unfold scaled, Qle. cbn [Qnum Qden].
  apply Z.mul_le_mono_nonneg_r; [lia | exact H].
Qed.

(** The value of a float in units of [2^e0]. *)
Lemma value_scaled s m e e0 :
  e0 <= 0 -> e0 <= e ->
  (Py.value (S754_finite s m e)
   == scaled ((if s then Zneg m else Zpos m) * 2 ^ (e - e0)) e0)%Q.
Proof.
  intros H0 He. unfold Py.value, scaled. cbv zeta.
  set (a := if s then Z.neg m else Z.pos m).
  destruct (Z.leb_spec 0 e) as [L|L]; unfold Qeq; cbn [Qnum Qden inject_Z];
    rewrite ?to_pos_pow2 by lia.
  - replace (e - e0) with (e + - e0) by lia.
    rewrite Z.pow_add_r by lia. ring.
  - replace (- e0) with ((e - e0) + - e) by lia.
    rewrite Z.pow_add_r by lia. ring.
Qed.

Lemma scaled_eq n n' e : n = n' -> (scaled n e == scaled n' e)%Q.
Proof. intros ->. apply Qeq_refl. Qed.

Lemma value_normal s m e e0 :
  2 ^ 52 <= m <= 2 ^ 53 -> e0 <= 0 -> e0 <= e ->
  (Py.value (normal s m e)
   == scaled ((if s then -1 else 1)
              * Z.min (m * 2 ^ (e - e0)) (2 ^ (1024 - e0))) e0)%Q.
Proof.
  intros Hm H0 He. unfold normal.
  assert (Hhuge : (Py.value (S754_infinity s)
            == scaled ((if s then -1 else 1) * 2 ^ (1024 - e0)) e0)%Q).
  { unfold Py.value, scaled, Qeq.
    destruct s; cbn [Qnum Qden inject_Z]; rewrite to_pos_pow2 by lia;
      replace (1024 - e0) with (1024 + - e0) by lia;
      rewrite Z.pow_add_r by lia; ring. }
  pose proof (pow2_pos (e - e0) ltac:(lia)) as Pe.
  assert (Hsign : forall p : positive,
            (if s then Z.neg p else Z.pos p) = (if s then -1 else 1) * Zpos p)
    by (intros p; destruct s; lia).
  destruct (m =? 2 ^ 53) eqn:E53.
  - apply Z.eqb_eq in E53.
    destruct (Z.leb_spec (e + 1) 971) as [L|L].
    + eapply Qeq_trans; [apply value_scaled with (e0 := e0); lia|].
      apply scaled_eq.
      assert (Hle : 2 ^ (53 + (e - e0)) <= 2 ^ (1024 - e0))
        by (apply Z.pow_le_mono_r; lia).
      rewrite Z.pow_add_r in Hle by lia.
      rewrite E53, Z.min_l by exact Hle.
      replace (e + 1 - e0) with (1 + (e - e0)) by lia.
      rewrite Z.pow_add_r, Hsign by lia.
      change (Z.pos (Z.to_pos (2 ^ 52))) with (2 ^ 52).
      change (2 ^ 53) with (2 ^ 52 * 2 ^ 1). ring.
    + eapply Qeq_trans; [apply Hhuge|]. apply scaled_eq.
      assert (Hle : 2 ^ (1024 - e0) <= 2 ^ (53 + (e - e0)))
        by (apply Z.pow_le_mono_r; lia).
      rewrite Z.pow_add_r in Hle by lia.
      rewrite E53, Z.min_r by exact Hle. reflexivity.
  - apply Z.eqb_neq in E53.
    destruct (Z.leb_spec e 971) as [L|L].
    + eapply Qeq_trans; [apply value_scaled with (e0 := e0); lia|].
      apply scaled_eq.
      assert (Hle : 2 ^ (53 + (e - e0)) <= 2 ^ (1024 - e0))
        by (apply Z.pow_le_mono_r; lia).
      rewrite Z.pow_add_r in Hle by lia.
      rewrite Z.min_l by nia.
      rewrite Hsign, Z2Pos.id by lia. ring.
    + eapply Qeq_trans; [apply Hhuge|]. apply scaled_eq.
      assert (Hle : 2 ^ (1024 - e0) <= 2 ^ (52 + (e - e0)))
        by (apply Z.pow_le_mono_r; lia).
      rewrite Z.pow_add_r in Hle by lia.
      rewrite Z.min_r by nia. reflexivity.
Qed.


Lemma rne_div_1 n : Py.rne_div n 1 = n.
Proof.
  unfold Py.rne_div. rewrite Z.div_1_r, Z.mod_1_r. reflexivity.
Qed.

Lemma Zdigits2_nonneg z : 0 <= Zdigits2 z.
Proof. destruct z; simpl; lia. Qed.

(** A number of at most 53 bits is kept. *)
Lemma round53_small m : Zdigits2 m <= 53 -> round53 m = m.
Proof.
  intros H. unfold round53. replace (Z.max (Zdigits2 m - 53) 0) with 0 by lia.
  rewrite Z.pow_0_r, rne_div_1. lia.
Qed.

(** A longer one stays between the powers of two around it. *)
Lemma round53_large m :
  0 <= m -> 53 <= Zdigits2 m ->
  2 ^ 52 <= Py.rne_div m (2 ^ (Zdigits2 m - 53)) <= 2 ^ 53 /\
  2 ^ (Zdigits2 m - 1) <= round53 m <= 2 ^ Zdigits2 m.
Proof.
  intros H0 H.
  assert (Hm : 0 < m) by (destruct m; simpl in H; lia).
  pose proof (Zdigits2_bounds m Hm) as B.
  unfold round53.
  replace (Z.max (Zdigits2 m - 53) 0) with (Zdigits2 m - 53) by lia.
  set (k := Zdigits2 m - 53) in *.
  pose proof (pow2_pos k ltac:(lia)) as Pk.
  replace (Zdigits2 m - 1) with (52 + k) in * by (subst k; lia).
  replace (Zdigits2 m) with (53 + k) in * by (subst k; lia).
  rewrite !Z.pow_add_r in * by lia.
  assert (R : 2 ^ 52 <= Py.rne_div m (2 ^ k) <= 2 ^ 53)
    by (apply rne_div_range; lia).
  split; [exact R | nia].
Qed.

Lemma Zdigits2_mono m1 m2 : 0 <= m1 <= m2 -> Zdigits2 m1 <= Zdigits2 m2.
Proof.
  intros H. destruct (Z.eq_dec m1 0) as [->|N]; [apply Zdigits2_nonneg|].
  pose proof (Zdigits2_bounds m1 ltac:(lia)) as B1.
  pose proof (Zdigits2_bounds m2 ltac:(lia)) as B2.
  pose proof (Zdigits2_nonneg m2) as N2.
  assert (Zdigits2 m1 - 1 < Zdigits2 m2); [|lia].
  apply pow2_le_inv; lia.
Qed.

Lemma round53_mono m1 m2 : 0 <= m1 <= m2 -> round53 m1 <= round53 m2.
Proof.
  intros H. pose proof (Zdigits2_mono m1 m2 H) as D.
  destruct (Z_le_gt_dec (Zdigits2 m2) 53) as [L2|G2].
  - rewrite !round53_small by lia. lia.
  - destruct (round53_large m2 ltac:(lia) ltac:(lia)) as [_ [Lo2 _]].
    destruct (Z_le_gt_dec (Zdigits2 m1) 53) as [L1|G1].
    + rewrite (round53_small m1) by exact L1.
      assert (2 ^ 53 <= 2 ^ (Zdigits2 m2 - 1)) by (apply Z.pow_le_mono_r; lia).
      destruct (Z.eq_dec m1 0) as [->|N]; [lia|].
      pose proof (Zdigits2_bounds m1 ltac:(lia)) as B1.
      assert (2 ^ Zdigits2 m1 <= 2 ^ 53)
        by (apply Z.pow_le_mono_r; [lia | exact L1]).
      lia.
    + destruct (round53_large m1 ltac:(lia) ltac:(lia)) as [_ [_ Hi1]].
      destruct (Z.eq_dec (Zdigits2 m1) (Zdigits2 m2)) as [E|N].
      * unfold round53. rewrite E.
        set (k := Z.max (Zdigits2 m2 - 53) 0).
        pose proof (pow2_pos k ltac:(lia)) as Pk.
        apply Z.mul_le_mono_nonneg_r; [lia|].
        apply rne_div_mono; lia.
      * assert (2 ^ Zdigits2 m1 <= 2 ^ (Zdigits2 m2 - 1))
          by (apply Z.pow_le_mono_r; lia).
        lia.
Qed.

Lemma round53_nonneg m : 0 <= m -> 0 <= round53 m.
Proof.
  intros H. change 0 with (round53 0) at 1. apply round53_mono. lia.
Qed.

Lemma nearest53_mono e n1 n2 :
  n1 <= n2 -> nearest53 e n1 <= nearest53 e n2.
Proof.
  intros H. unfold nearest53.
  assert (P : 0 < 2 ^ (1024 - e) \/ 2 ^ (1024 - e) = 0).
  { destruct (Z_le_gt_dec 0 (1024 - e)) as [L|G];
      [left; apply pow2_pos; exact L | right; apply Z.pow_neg_r; lia]. }
  assert (F : forall a b, 0 <= a <= b ->
            0 <= Z.min (round53 a) (2 ^ (1024 - e))
              <= Z.min (round53 b) (2 ^ (1024 - e))).
  { intros a b Hab. pose proof (round53_mono a b Hab).
    pose proof (round53_nonneg a ltac:(lia)). lia. }
  destruct (Z.sgn_spec n1) as [[? ->]|[[? ->]|[? ->]]];
    destruct (Z.sgn_spec n2) as [[? ->]|[[? ->]|[? ->]]]; try lia.
  - pose proof (F (Z.abs n1) (Z.abs n2) ltac:(lia)). lia.
  - pose proof (F 0 (Z.abs n2) ltac:(lia)). lia.
  - pose proof (F 0 (Z.abs n1) ltac:(lia)).
    pose proof (F 0 (Z.abs n2) ltac:(lia)). lia.
  - pose proof (F 0 (Z.abs n1) ltac:(lia)). lia.
  - pose proof (F (Z.abs n2) (Z.abs n1) ltac:(lia)). lia.
Qed.

(** The value [binary_round] gives to the mantissa [p] at the exponent
    [e]. *)
Lemma value_binary_round sx p e :
  -1000 <= e <= 0 ->
  (Py.value (binary_round 53 1024 sx p e)
   == scaled ((if sx then -1 else 1)
              * Z.min (round53 (Zpos p)) (2 ^ (1024 - e))) e)%Q.
Proof.
  intros He. rewrite binary_round_normal by lia. cbv zeta.
  set (d := Zdigits2 (Zpos p)).
  pose proof (Zdigits2_bounds (Zpos p) ltac:(lia)) as Bp. fold d in Bp.
  assert (Hd : 1 <= d) by (subst d; simpl; lia).
  destruct (Z_le_gt_dec 53 d) as [L|G].
  - destruct (round53_large (Zpos p) ltac:(lia) L) as [R _]. fold d in R.
    replace (Z.max (53 - d) 0) with 0 by lia.
    replace (Z.max (d - 53) 0) with (d - 53) by lia.
    rewrite Z.pow_0_r, Z.mul_1_r.
    eapply Qeq_trans; [apply value_normal with (e0 := e); [exact R | lia ..]|].
    apply scaled_eq. unfold round53. fold d.
    replace (Z.max (d - 53) 0) with (d - 53) by lia.
    replace (e + d - 53 - e) with (d - 53) by lia. reflexivity.
  - replace (Z.max (53 - d) 0) with (53 - d) by lia.
    replace (Z.max (d - 53) 0) with 0 by lia.
    rewrite Z.pow_0_r, rne_div_1.
    pose proof (pow2_pos (53 - d) ltac:(lia)) as Pk.
    assert (Hb : 2 ^ 52 <= Zpos p * 2 ^ (53 - d) < 2 ^ 53).
    { assert (E1 : 2 ^ 52 = 2 ^ (d - 1) * 2 ^ (53 - d))
        by (rewrite <- Z.pow_add_r by lia; f_equal; lia).
      assert (E2 : 2 ^ 53 = 2 ^ d * 2 ^ (53 - d))
        by (rewrite <- Z.pow_add_r by lia; f_equal; lia).
      rewrite E1, E2. nia. }
    eapply Qeq_trans;
      [apply value_normal with (e0 := e + d - 53); lia|].
    rewrite Z.sub_diag, Z.pow_0_r, Z.mul_1_r.
    assert (H1 : 2 ^ 53 <= 2 ^ (1024 - (e + d - 53)))
      by (apply Z.pow_le_mono_r; lia).
    assert (H2 : 2 ^ 53 <= 2 ^ (1024 - e))
      by (apply Z.pow_le_mono_r; lia).
    assert (H3 : 2 ^ d <= 2 ^ 53) by (apply Z.pow_le_mono_r; lia).
    rewrite Z.min_l by lia.
    rewrite round53_small by (fold d; lia).
    rewrite Z.min_l by lia.
    unfold scaled, Qeq. cbn [Qnum Qden].
    rewrite !to_pos_pow2 by lia.
    replace (- (e + d - 53)) with ((53 - d) + - e) by lia.
    rewrite Z.pow_add_r by lia. ring.
Qed.

(** The sum of an integer and of a float below [2^53 * 2^ey]: the exact
    sum, in units of [2^ey], rounded. *)
Lemma add_value s my ey :
  Zpos my < 2 ^ 53 -> -1000 <= ey <= 0 ->
  (Py.value (SFadd 53 1024 (Py.of_int s) (S754_finite false my ey))
   == scaled (nearest53 ey (s * 2 ^ (- ey) + Zpos my)) ey)%Q.
Proof.
  intros Hmy Hey.
  pose proof (pow2_pos (- ey) ltac:(lia)) as Pe.
  assert (Halign : forall p,
            Zpos (fst (shl_align p 0 ey)) = Zpos p * 2 ^ (- ey)).
  { intros p. unfold shl_align.
    destruct (ey - 0) as [|k|k] eqn:E; try lia.
    - replace (- ey) with 0 by lia. simpl fst. lia.
    - simpl fst. rewrite iter_xO. f_equal. f_equal. lia. }
  assert (Hself : fst (shl_align my ey ey) = my).
  { unfold shl_align. rewrite Z.sub_diag. reflexivity. }
  assert (Hround : forall n,
            (Py.value (binary_normalize 53 1024 n ey false)
             == scaled (nearest53 ey n) ey)%Q).
  { intros n. unfold binary_normalize, nearest53. destruct n as [|p|p].
    - unfold Py.value, scaled, Qeq. cbn [Qnum Qden].
      change (Z.sgn 0) with 0. lia.
    - eapply Qeq_trans; [apply value_binary_round; lia|].
      apply scaled_eq. reflexivity.
    - eapply Qeq_trans; [apply value_binary_round; lia|].
      apply scaled_eq. reflexivity. }
  destruct s as [|p|p]; unfold Py.of_int, SFadd.
  - eapply Qeq_trans; [apply value_scaled with (e0 := ey); lia|].
    apply scaled_eq. rewrite Z.sub_diag, Z.pow_0_r.
    unfold nearest53. simpl Z.sgn. simpl Z.abs.
    assert (Hd : Zdigits2 (Zpos my) <= 53).
    { pose proof (Zdigits2_bounds (Zpos my) ltac:(lia)) as B.
      assert (Zdigits2 (Zpos my) - 1 < 53); [|lia].
      apply pow2_le_inv; lia. }
    rewrite round53_small by exact Hd.
    assert (2 ^ 53 <= 2 ^ (1024 - ey)) by (apply Z.pow_le_mono_r; lia).
    rewrite Z.min_l by lia. lia.
  - replace (Z.min 0 ey) with ey by lia.
    cbn [cond_Zopp]. rewrite Halign, Hself. apply Hround.
  - replace (Z.min 0 ey) with ey by lia.
    cbn [cond_Zopp]. rewrite Halign, Hself.
    change (Z.neg p) with (- Zpos p).
    replace (- Z.pos p * 2 ^ (- ey)) with (- (Z.pos p * 2 ^ (- ey))) by ring.
    apply Hround.
Qed.



End Rounding.

(** ** Timestamps *)

Section Timestamps.

(** The fraction [microsecond / 1e6]: zero, or a float that is at most
    1. *)
Lemma microsecond_fraction us :
  0 <= us < 1000000 ->
  us = 0 /\
  SFdiv 53 1024 (Py.of_int us) (Py.of_int 1000000) = S754_zero false \/
  exists my ey,
    SFdiv 53 1024 (Py.of_int us) (Py.of_int 1000000)
    = S754_finite false my ey /\
    Zpos my < 2 ^ 53 /\ -1000 <= ey <= 0 /\ Zpos my <= 2 ^ (- ey).
Proof.
  intros Hus. destruct us as [|a|a]; [left; split; reflexivity | right | lia].
  unfold Py.of_int.
  rewrite SFdiv_pos by (vm_compute; discriminate).
  destruct (qdrop_bounds a 1000000) as [Hk Hkb].
  pose proof (qmant_bounds a 1000000) as Hm.
  pose proof (Zdigits2_bounds (Zpos a) ltac:(lia)) as Ba.
  simpl Zdigits2 in Ba.
  assert (Hs : 53 <= qshift a 1000000 <= 72).
  { unfold qshift. change (Z.pos (digits2_pos 1000000)) with 20.
    assert (Z.pos (digits2_pos a) - 1 < 20); [|lia].
    apply pow2_le_inv; [lia|]. change (2 ^ 20) with 1048576. lia. }
  assert (Hq : qdrop a 1000000 < 40).
  { apply pow2_le_inv; [lia|].
    assert (2 ^ qshift a 1000000 <= 2 ^ 72) by (apply Z.pow_le_mono_r; lia).
    pose proof (pow2_pos (qshift a 1000000) ltac:(lia)).
    assert (Z.pos a * 2 ^ qshift a 1000000 < 1000000 * 2 ^ 72) by nia.
    change (2 ^ 40) with 1099511627776.
    change (2 ^ 72) with 4722366482869645213696 in *.
    change (2 ^ 52) with 4503599627370496 in *. lia. }
  assert (Hone : qmant a 1000000
                 <= 2 ^ (qshift a 1000000 - qdrop a 1000000)).
  { pose proof (pow2_pos (qdrop a 1000000) Hk) as Pk.
    pose proof (pow2_pos (qshift a 1000000 - qdrop a 1000000) ltac:(lia)) as Pd.
    assert (Esplit : 2 ^ qshift a 1000000
                     = 2 ^ (qshift a 1000000 - qdrop a 1000000)
                       * 2 ^ qdrop a 1000000).
    { rewrite <- Z.pow_add_r by lia. f_equal. lia. }
    unfold qmant.
    apply (rne_div_range _ _ 0); [lia|]. rewrite Esplit. nia. }
  unfold normal.
  destruct (qmant a 1000000 =? 2 ^ 53) eqn:E.
  - replace (qdrop a 1000000 - qshift a 1000000 + 1 <=? 971) with true
      by (symmetry; apply Z.leb_le; lia).
    apply Z.eqb_eq in E. rewrite E in Hone.
    assert (53 <= qshift a 1000000 - qdrop a 1000000).
    { destruct (Z_lt_le_dec (qshift a 1000000 - qdrop a 1000000) 53)
        as [L|L]; [|exact L].
      assert (2 ^ (qshift a 1000000 - qdrop a 1000000) <= 2 ^ 52)
        by (apply Z.pow_le_mono_r; lia).
      assert (2 ^ 52 < 2 ^ 53) by reflexivity. lia. }
    eexists _, _. split; [reflexivity|]. split; [reflexivity|].
    split; [lia|].
    change (Z.pos (Z.to_pos (2 ^ 52))) with (2 ^ 52).
    apply Z.pow_le_mono_r; lia.
  - apply Z.eqb_neq in E.
    replace (qdrop a 1000000 - qshift a 1000000 <=? 971) with true
      by (symmetry; apply Z.leb_le; lia).
    eexists _, _. split; [reflexivity|].
    rewrite Z2Pos.id by lia.
    replace (- (qdrop a 1000000 - qshift a 1000000))
      with (qshift a 1000000 - qdrop a 1000000) by lia.
    lia.
Qed.

(** The float sum grows with the integer. *)
Lemma stamp_le s1 s2 us :
  0 <= us < 1000000 -> s1 <= s2 ->
  (Py.value (SFadd 53 1024 (Py.of_int s1)
               (SFdiv 53 1024 (Py.of_int us) (Py.of_int 1000000)))
   <= Py.value (SFadd 53 1024 (Py.of_int s2)
                  (SFdiv 53 1024 (Py.of_int us) (Py.of_int 1000000))))%Q.
Proof.
  intros Hus Hs.
  destruct (microsecond_fraction us Hus)
    as [[_ ->] | (my & ey & -> & Hmy & Hey & _)].
  - assert (V : forall s,
              (Py.value (SFadd 53 1024 (Py.of_int s) (S754_zero false))
               == inject_Z s)%Q).
    { intros [|p|p]; unfold Py.of_int, SFadd, Py.value; cbv zeta;
        cbn [Z.leb Z.compare]; rewrite ?Z.pow_0_r, ?Z.mul_1_r;
        apply Qeq_refl. }
    rewrite !V. rewrite <- Zle_Qle. exact Hs.
  - rewrite !add_value by assumption.
    apply scaled_le, nearest53_mono.
    pose proof (pow2_pos (- ey) ltac:(lia)). nia.
Qed.

(** [mktime] takes off the offset the zone has at some instant, not
    far from [t]. *)
Lemma mktime_offset tz t :
  exists u, t - 176400 < u < t + 90000 /\
            Py.mktime tz t = t - Py.utcoffset tz u.
Proof.
  unfold Py.mktime, Py.localtime. cbv zeta.
  replace (t + Py.utcoffset tz t - t) with (Py.utcoffset tz t) by lia.
  pose proof (Py.utcoffset_range tz t) as R.
  set (u1 := t - Py.utcoffset tz t).
  assert (R1 : t - 90000 < u1 < t + 90000) by (subst u1; lia).
  replace (u1 - 86400 + Py.utcoffset tz (u1 - 86400) - (u1 - 86400))
    with (Py.utcoffset tz (u1 - 86400)) by lia.
  replace (u1 + Py.utcoffset tz u1 - u1) with (Py.utcoffset tz u1) by lia.
  destruct (u1 + Py.utcoffset tz u1 =? t).
  - destruct (Py.utcoffset tz t =? Py.utcoffset tz (u1 - 86400)); cbn [andb].
    + exists t. split; [lia | reflexivity].
    + destruct (_ =? t).
      * exists (u1 - 86400). split; [lia | reflexivity].
      * exists t. split; [lia | reflexivity].
  - cbn [andb].
    destruct (_ =? t).
    + exists u1. split; [lia | reflexivity].
    + destruct (Z.max_spec u1 (t - Py.utcoffset tz u1)) as [[_ ->] | [_ ->]].
      * exists u1. split; [lia | reflexivity].
      * exists t. split; [lia | reflexivity].
Qed.

Lemma mktime_range tz t : t - 90000 < Py.mktime tz t < t + 90000.
Proof.
  destruct (mktime_offset tz t) as (u & _ & ->).
  pose proof (Py.utcoffset_range tz u). lia.
Qed.

(** Two wall-clock times more than fifty hours apart, with the same
    microseconds, have their timestamps in the same order. *)
Lemma timestamp_le tz dt1 dt2 :
  dt1 mod 1000000 = dt2 mod 1000000 ->
  dt1 / 1000000 + 180000 <= dt2 / 1000000 ->
  (Py.timestamp tz dt1 <= Py.timestamp tz dt2)%Q.
Proof.
  intros Hus Hs. unfold Py.timestamp. cbv zeta. rewrite Hus.
  apply stamp_le; [apply Z.mod_pos_bound; lia|].
  pose proof (mktime_range tz (dt1 / 1000000)).
  pose proof (mktime_range tz (dt2 / 1000000)). lia.
Qed.

Lemma sub_seconds dt k :
  (dt - k * 1000000) mod 1000000 = dt mod 1000000 /\
  (dt - k * 1000000) / 1000000 = dt / 1000000 - k.
Proof.
  replace (dt - k * 1000000) with (dt + (- k) * 1000000) by ring.
  rewrite Z.mod_add, Z.div_add by lia. split; [reflexivity | lia].
Qed.

(** The cutoffs come in the order month, week, day, whatever the zone. *)
Lemma cutoffs_ordered tz now :
  (week_ago tz now <= day_ago tz now)%Q /\
  (month_ago tz now <= week_ago tz now)%Q.
Proof.
  unfold day_ago, week_ago, month_ago, Py.hours, Py.days.
  destruct (sub_seconds now (24 * 3600)) as [M1 D1].
  destruct (sub_seconds now (7 * 86400)) as [M7 D7].
  destruct (sub_seconds now (30 * 86400)) as [M30 D30].
  split; apply timestamp_le; rewrite ?M1, ?M7, ?M30, ?D1, ?D7, ?D30;
    try reflexivity; lia.
Qed.





End Timestamps.

Section QuotInt.

Variable b : positive.
Hypothesis b_small : Zpos (digits2_pos b) <= 1000.

Lemma truediv_int_pos a q :
  Py.truediv (Zpos a) (Zpos b) = Ok q -> Py.int q = Ok (quot_int a b).
Proof.
  unfold Py.truediv. simpl Z.eqb. cbv iota. simpl Py.of_int.
  rewrite SFdiv_pos by exact b_small. simpl xorb.
  destruct (int_normal a b false _ eq_refl) as [E | E].
  - rewrite E. discriminate.
  - intros H.
    assert (Hq : normal false (qmant a b) (qdrop a b - qshift a b) = q).
    { destruct (normal false (qmant a b) (qdrop a b - qshift a b));
        congruence. }
    rewrite <- Hq. exact E.
Qed.

(** A quotient below [2^1000] fits. *)
Lemma truediv_pos_fits a s :
  Zpos a < 2 ^ 1000 ->
  exists m e, normal s (qmant a b) (qdrop a b - qshift a b)
              = S754_finite s m e.
Proof.
  intros Ha.
  destruct (qdrop_bounds a b) as [Hk [Hlo _]].
  pose proof (qshift_nonneg a b) as Hs.
  pose proof (pow2_pos (qdrop a b) Hk) as Hpk.
  pose proof (pow2_pos (qshift a b) Hs) as Hps.
  assert (He : qdrop a b - qshift a b < 948).
  { assert (H : 2 ^ (52 + qdrop a b) < 2 ^ (1000 + qshift a b)).
    { rewrite !Z.pow_add_r by lia.
      assert (0 < 2 ^ 52) by reflexivity. nia. }
    apply pow2_le_inv in H; lia. }
  destruct (normal_cases s _ (qdrop a b - qshift a b) (qmant_bounds a b))
    as (m' & e' & Hme & Hn).
  exists m', e'. rewrite Hn.
  replace (e' <=? 971) with true; [reflexivity|].
  symmetry. apply Z.leb_le. destruct Hme as [[-> _] | [-> _]]; lia.
Qed.

Lemma quot_int_nonneg a : 0 <= quot_int a b.
Proof.
  unfold quot_int.
  destruct (qdrop_bounds a b) as [Hk _].
  pose proof (qmant_bounds a b).
  pose proof (pow2_pos (qdrop a b) Hk).
  pose proof (pow2_pos (qshift a b) (qshift_nonneg a b)).
  apply Z.div_pos; [|lia]. apply Z.mul_nonneg_nonneg; lia.
Qed.

(** [int(a / b)] grows with [a]. *)
Lemma quot_int_mono a1 a2 :
  (a1 <= a2)%positive -> quot_int a1 b <= quot_int a2 b.
Proof.
  intros Hle. unfold quot_int.
  destruct (qdrop_bounds a1 b) as [Hk1 [Hlo1 Hhi1]].
  destruct (qdrop_bounds a2 b) as [Hk2 [Hlo2 Hhi2]].
  pose proof (qmant_bounds a1 b) as Hm1.
  pose proof (qmant_bounds a2 b) as Hm2.
  pose proof (qshift_nonneg a1 b) as Hs1.
  pose proof (qshift_nonneg a2 b) as Hs2.
  assert (Hs : qshift a2 b <= qshift a1 b).
  { pose proof (digits2_pos_le a1 a2 Hle). unfold qshift. lia. }
  set (s1 := qshift a1 b) in *. set (s2 := qshift a2 b) in *.
  set (k1 := qdrop a1 b) in *. set (k2 := qdrop a2 b) in *.
  set (t := s1 - s2).
  pose proof (pow2_pos t ltac:(lia)) as Hpt.
  pose proof (pow2_pos s1 Hs1) as Hps1.
  pose proof (pow2_pos s2 Hs2) as Hps2.
  pose proof (pow2_pos k1 Hk1) as Hpk1.
  pose proof (pow2_pos k2 Hk2) as Hpk2.
  assert (Es1 : 2 ^ s1 = 2 ^ t * 2 ^ s2).
  { rewrite <- Z.pow_add_r by lia. f_equal. lia. }
  (* the second quotient, seen at the scale of the first *)
  assert (E2 : qmant a2 b * 2 ^ k2 / 2 ^ s2 =
               qmant a2 b * 2 ^ (k2 + t) / 2 ^ s1).
  { rewrite Es1, Z.pow_add_r by lia.
    replace (qmant a2 b * (2 ^ k2 * 2 ^ t))
      with (qmant a2 b * 2 ^ k2 * 2 ^ t) by ring.
    rewrite (Z.mul_comm (2 ^ t) (2 ^ s2)).
    rewrite Z.div_mul_cancel_r by lia. reflexivity. }
  rewrite E2.
  apply Z.div_le_mono; [lia|].
  assert (Em2 : qmant a2 b =
                Py.rne_div (Zpos a2 * 2 ^ s1) (Zpos b * 2 ^ (k2 + t))).
  { unfold qmant. fold s2 k2.
    rewrite Es1, Z.pow_add_r by lia.
    replace (Z.pos a2 * (2 ^ t * 2 ^ s2)) with (2 ^ t * (Zpos a2 * 2 ^ s2))
      by ring.
    replace (Z.pos b * (2 ^ k2 * 2 ^ t)) with (2 ^ t * (Zpos b * 2 ^ k2))
      by ring.
    rewrite rne_div_scale by lia. reflexivity. }
  assert (Hlo2' : 2 ^ 52 * (Zpos b * 2 ^ (k2 + t)) <= Zpos a2 * 2 ^ s1).
  { rewrite Es1, Z.pow_add_r by lia. nia. }
  assert (Hhi2' : Zpos a2 * 2 ^ s1 < 2 ^ 53 * (Zpos b * 2 ^ (k2 + t))).
  { rewrite Es1, Z.pow_add_r by lia. nia. }
  assert (Hn : Zpos a1 * 2 ^ s1 <= Zpos a2 * 2 ^ s1).
  { apply Z.mul_le_mono_nonneg_r; lia. }
  pose proof (pow2_pos (k2 + t) ltac:(lia)) as Hpk2t.
  assert (Hk : k1 <= k2 + t).
  { destruct (Z_le_gt_dec k1 (k2 + t)) as [L|G]; [exact L | exfalso].
    assert (H : 2 * 2 ^ (k2 + t) <= 2 ^ k1).
    { rewrite <- Z.pow_succ_r by lia. apply Z.pow_le_mono_r; lia. }
    assert (H53 : 2 ^ 53 = 2 * 2 ^ 52) by reflexivity.
    assert (0 < 2 ^ 52) by reflexivity.
    nia. }
  destruct (Z.eq_dec k1 (k2 + t)) as [Heq | Hne].
  - rewrite <- Heq in *.
    apply Z.mul_le_mono_nonneg_r; [lia|].
    unfold qmant at 1. fold s1 k1. rewrite Em2.
    apply rne_div_mono; lia.
  - assert (H : 2 * 2 ^ k1 <= 2 ^ (k2 + t)).
    { rewrite <- Z.pow_succ_r by lia. apply Z.pow_le_mono_r; lia. }
    assert (H53 : 2 ^ 53 = 2 * 2 ^ 52) by reflexivity.
    assert (0 < 2 ^ 52) by reflexivity.
    nia.
Qed.

End QuotInt.

(** ** Decimal strings *)

Section DecimalStrings.

Import Decimal.

Lemma to_int_nonnil z : Z.to_int z <> Pos Nil /\ Z.to_int z <> Neg Nil.
Proof.
  destruct z as [|p|p]; simpl; split; try discriminate;
    intros [= H]; exact (DecimalPos.Unsigned.to_uint_nonnil p H).
Qed.

(** Reading back what [str] has written. *)
Lemma read_int_str z : read_int (Py.str z) = Some z.
Proof.
  unfold read_int, Py.str. destruct (to_int_nonnil z) as [H1 H2].
  rewrite NilZero.isi by assumption. simpl. rewrite DecimalZ.of_to.
  reflexivity.
Qed.

Lemma of_uint_acc_value u : forall acc,
  Zpos (Pos.of_uint_acc u acc) =
  Zpos acc * 10 ^ Z.of_nat (nb_digits u) + Z.of_uint u.
Proof.
  unfold Z.of_uint.
  induction u as [|u IH|u IH|u IH|u IH|u IH|u IH|u IH|u IH|u IH|u IH];
    intros acc; cbn [Pos.of_uint_acc Pos.of_uint nb_digits Z.of_N];
    [ rewrite Z.pow_0_r; lia | .. ];
    rewrite Nat2Z.inj_succ, Z.pow_succ_r by lia;
    rewrite !IH; lia.
Qed.

Lemma uint_of_digit c u :
  0 <= c < 10 ->
  exists u', uint_of_char (Py.digit c) (Some u) = Some u' /\
             nb_digits u' = S (nb_digits u) /\
             Z.of_uint u' = c * 10 ^ Z.of_nat (nb_digits u) + Z.of_uint u.
Proof.
  intros Hc.
  assert (H : c = 0 \/ c = 1 \/ c = 2 \/ c = 3 \/ c = 4 \/ c = 5 \/ c = 6 \/
              c = 7 \/ c = 8 \/ c = 9) by lia.
  unfold Z.of_uint.
  repeat destruct H as [-> | H]; try subst c;
    (eexists; split; [reflexivity | split; [reflexivity|]]);
    cbn [Pos.of_uint Z.of_N]; rewrite ?of_uint_acc_value;
    unfold Z.of_uint; lia.
Qed.

Lemma digit_is_digit c :
  0 <= c < 10 -> (48 <= nat_of_ascii (Py.digit c) <= 57)%nat.
Proof.
  intros Hc. unfold Py.digit.
  rewrite nat_ascii_embedding by lia. lia.
Qed.

Lemma digits_length k n : String.length (Py.digits k n) = k.
Proof. induction k; simpl; congruence. Qed.

Lemma digits_all_digits k n : all_digits (Py.digits k n).
Proof.
  induction k as [|k IH]; simpl; [exact I|]. split; [|exact IH].
  apply (digit_is_digit ((n / 10 ^ Z.of_nat k) mod 10)).
  apply Z.mod_pos_bound. lia.
Qed.

Lemma uint_of_digits k n :
  exists u, NilEmpty.uint_of_string (Py.digits k n) = Some u /\
            nb_digits u = k /\ Z.of_uint u = n mod 10 ^ Z.of_nat k.
Proof.
  induction k as [|k (u & Hu & Hk & Hv)].
  - exists Nil. simpl. rewrite Z.mod_1_r. auto.
  - cbn [Py.digits NilEmpty.uint_of_string]. rewrite Hu.
    set (c := (n / 10 ^ Z.of_nat k) mod 10).
    assert (Hc : 0 <= c < 10) by (apply Z.mod_pos_bound; lia).
    destruct (uint_of_digit c u Hc) as (u' & Hu' & Hk' & Hv').
    exists u'. split; [exact Hu' | split; [lia|]].
    rewrite Hv', Hk, Hv, Nat2Z.inj_succ, Z.pow_succ_r by lia.
    pose proof (pow2_pos 0 ltac:(lia)).
    assert (0 < 10 ^ Z.of_nat k) by (apply Z.pow_pos_nonneg; lia).
    rewrite (Z.mul_comm 10), Z.rem_mul_r by lia.
    subst c. ring.
Qed.

(** The [k] digits of [n] read as [n], when [n] has no more than [k]. *)
Lemma read_int_digits k n :
  (0 < k)%nat -> 0 <= n < 10 ^ Z.of_nat k ->
  read_int (Py.digits k n) = Some n.
Proof.
  intros Hk Hn.
  destruct (uint_of_digits k n) as (u & Hu & _ & Hv).
  destruct k as [|k]; [lia|].
  unfold read_int, NilZero.int_of_string.
  cbn [Py.digits] in *.
  set (c := (n / 10 ^ Z.of_nat k) mod 10) in *.
  assert (Hc : 0 <= c < 10) by (apply Z.mod_pos_bound; lia).
  replace (Ascii.eqb (Py.digit c) "-") with false.
  2:{ symmetry. apply Ascii.eqb_neq. intros E.
      pose proof (digit_is_digit c Hc) as D.
      rewrite E in D. change (nat_of_ascii "-") with 45%nat in D. lia. }
  unfold NilZero.uint_of_string. rewrite Hu. simpl.
  rewrite Hv, Z.mod_small by lia. reflexivity.
Qed.

Lemma string_of_uint_digits u : all_digits (NilEmpty.string_of_uint u).
Proof.
  induction u; cbn [NilEmpty.string_of_uint all_digits];
    try exact I; (split; [compute; lia | assumption]).
Qed.

Lemma str_all_digits z : 0 <= z -> all_digits (Py.str z).
Proof.
  intros Hz. unfold Py.str.
  destruct z as [|p|p]; try lia.
  - split; [compute; lia | exact I].
  - cbn [Z.to_int NilZero.string_of_int NilZero.string_of_uint].
    destruct (Pos.to_uint p);
      [ split; [compute; lia | exact I]
      | exact (string_of_uint_digits _) .. ].
Qed.

Lemma str_nonempty z : Py.str z <> EmptyString.
Proof.
  intros E. pose proof (read_int_str z) as R. rewrite E in R. discriminate.
Qed.

End DecimalStrings.

(** ** The result monad *)

Section Result.

Context {A B : Type}.

Lemma bind_Ok (r : result A) (k : A -> result B) (v : B) :
  (x <- r ;; k x) = Ok v -> exists a, r = Ok a /\ k a = Ok v.
Proof. destruct r as [a|e]; simpl; [eauto | discriminate]. Qed.

Lemma bind_Raise (r : result A) (k : A -> result B) (e : exn) :
  (x <- r ;; k x) = Raise e ->
  r = Raise e \/ exists a, r = Ok a /\ k a = Raise e.
Proof. destruct r as [a|e']; simpl; [eauto | intros [= ->]; auto]. Qed.

End Result.

(** ** Millisatoshi totals as satoshi strings *)

Section SatStr.

Lemma small_1000 : Zpos (digits2_pos 1000) <= 1000.
Proof. discriminate. Qed.

Lemma truediv_pos_normal (a b : positive) :
  Zpos (digits2_pos b) <= 1000 ->
  Py.truediv (Zpos a) (Zpos b) =
  match normal false (qmant a b) (qdrop a b - qshift a b) with
  | S754_infinity _ => Raise OverflowError
  | q => Ok q
  end.
Proof.
  intros Hb. unfold Py.truediv.
  change (Z.pos b =? 0) with false. cbv iota.
  cbn [Py.of_int]. rewrite SFdiv_pos by exact Hb. reflexivity.
Qed.

Lemma truediv_neg_normal (a b : positive) :
  Zpos (digits2_pos b) <= 1000 ->
  Py.truediv (Zneg a) (Zpos b) =
  match normal true (qmant a b) (qdrop a b - qshift a b) with
  | S754_infinity _ => Raise OverflowError
  | q => Ok q
  end.
Proof.
  intros Hb. unfold Py.truediv.
  change (Z.pos b =? 0) with false. cbv iota.
  cbn [Py.of_int]. rewrite SFdiv_pos by exact Hb. reflexivity.
Qed.

Lemma sat_str_zero : sat_str 0 = Ok "0"%string.
Proof. reflexivity. Qed.

(** A positive total that is converted gives [int(a / 1000)]. *)
Lemma sat_str_pos a s :
  sat_str (Zpos a) = Ok s -> s = Py.str (quot_int a 1000).
Proof.
  unfold sat_str. intros H.
  apply bind_Ok in H. destruct H as (q & Hq & H).
  apply (truediv_int_pos 1000 small_1000) in Hq.
  rewrite Hq in H. simpl in H. congruence.
Qed.

(** Totals below [2^1000] in absolute value are converted. *)
Lemma sat_str_fits t :
  Z.abs t < 2 ^ 1000 -> exists s, sat_str t = Ok s.
Proof.
  intros Ht. unfold sat_str.
  destruct t as [|a|a].
  - eexists. reflexivity.
  - rewrite truediv_pos_normal by exact small_1000.
    destruct (truediv_pos_fits 1000 a false ltac:(lia)) as (m & e & ->).
    simpl. eexists. reflexivity.
  - rewrite truediv_neg_normal by exact small_1000.
    destruct (truediv_pos_fits 1000 a true ltac:(lia)) as (m & e & ->).
    simpl. eexists. reflexivity.
Qed.

(** The satoshi strings of two non-negative totals are ordered as the
    totals are. *)
Lemma sat_str_mono t1 t2 s1 s2 :
  0 <= t1 <= t2 -> sat_str t1 = Ok s1 -> sat_str t2 = Ok s2 ->
  exists n1 n2,
    read_int s1 = Some n1 /\ read_int s2 = Some n2 /\ 0 <= n1 <= n2.
Proof.
  intros Ht H1 H2.
  destruct t1 as [|a1|a1]; destruct t2 as [|a2|a2]; try lia.
  - rewrite sat_str_zero in H1, H2. injection H1 as <-. injection H2 as <-.
    exists 0, 0. repeat split; reflexivity || lia.
  - rewrite sat_str_zero in H1. injection H1 as <-.
    apply sat_str_pos in H2. subst s2.
    exists 0, (quot_int a2 1000).
    rewrite read_int_str.
    pose proof (quot_int_nonneg 1000 a2).
    repeat split; reflexivity || lia.
  - apply sat_str_pos in H1. apply sat_str_pos in H2. subst s1 s2.
    exists (quot_int a1 1000), (quot_int a2 1000).
    rewrite !read_int_str.
    pose proof (quot_int_nonneg 1000 a1).
    pose proof (quot_int_mono 1000 a1 a2 ltac:(lia)).
    repeat split; reflexivity || lia.
Qed.

(** Below [2^44] satoshi the float quotient has the integer part of the
    exact one. *)
Lemma quot_int_exact a :
  Zpos a < 2 ^ 44 * 1000 -> quot_int a 1000 = Zpos a / 1000.
Proof.
  intros Ha. unfold quot_int.
  destruct (qdrop_bounds a 1000) as [Hk [Hlo Hhi]].
  pose proof (qshift_nonneg a 1000) as Hs.
  set (s := qshift a 1000) in *. set (k := qdrop a 1000) in *.
  pose proof (pow2_pos k Hk) as Hpk. pose proof (pow2_pos s Hs) as Hps.
  assert (Hsk : k + 9 <= s).
  { assert (H : 2 ^ (52 + k) < 2 ^ (44 + s)).
    { rewrite !Z.pow_add_r by lia.
      assert (0 < 2 ^ 52) by reflexivity.
      assert (E : 2 ^ 52 = 2 ^ 44 * 256) by reflexivity. nia. }
    apply pow2_le_inv in H; lia. }
  set (t := s - k).
  pose proof (pow2_pos t ltac:(lia)) as Hpt.
  assert (Es : 2 ^ s = 2 ^ t * 2 ^ k).
  { rewrite <- Z.pow_add_r by lia. f_equal. lia. }
  assert (Ht : 512 <= 2 ^ t).
  { change 512 with (2 ^ 9). apply Z.pow_le_mono_r; lia. }
  assert (Em : qmant a 1000 = Py.rne_div (Zpos a * 2 ^ t) 1000).
  { unfold qmant. fold s k. rewrite Es.
    replace (Z.pos a * (2 ^ t * 2 ^ k)) with (2 ^ k * (Zpos a * 2 ^ t))
      by ring.
    rewrite (Z.mul_comm 1000 (2 ^ k)).
    apply rne_div_scale; lia. }
  rewrite Es, Z.div_mul_cancel_r by lia.
  pose proof (rne_div_error (Zpos a * 2 ^ t) 1000 ltac:(lia)) as Herr.
  rewrite <- Em in Herr.
  pose proof (Z.div_mod (Zpos a) 1000 ltac:(lia)) as E.
  pose proof (Z.mod_pos_bound (Zpos a) 1000 ltac:(lia)) as B.
  set (n := Zpos a / 1000) in *. set (f := Zpos a mod 1000) in *.
  symmetry.
  apply Z.div_unique with (r := qmant a 1000 - n * 2 ^ t); [|lia].
  left.
  assert (Hx : qmant a 1000 * 1000 - Zpos a * 2 ^ t =
               (qmant a 1000 - n * 2 ^ t) * 1000 - f * 2 ^ t)
    by (rewrite E; ring).
  rewrite Hx in Herr.
  destruct (Z.abs_spec ((qmant a 1000 - n * 2 ^ t) * 1000 - f * 2 ^ t))
    as [[_ Ea] | [_ Ea]]; rewrite Ea in Herr; nia.
Qed.

(** Totals from zero to below [2^44] satoshi are converted by exact
    integer division. *)
Lemma sat_str_exact t :
  0 <= t < 2 ^ 44 * 1000 -> sat_str t = Ok (Py.str (t / 1000)).
Proof.
  intros Ht. destruct t as [|a|a]; try lia; [reflexivity|].
  destruct (sat_str_fits (Zpos a)) as [s Hs].
  { assert (2 ^ 44 * 1000 < 2 ^ 1000) by reflexivity. lia. }
  rewrite Hs. apply sat_str_pos in Hs. subst s.
  rewrite quot_int_exact by lia. reflexivity.
Qed.

End SatStr.

(** ** The fee rate *)

Section FeeRate.

Lemma small_1000000 : Zpos (digits2_pos 1000000) <= 1000.
Proof. discriminate. Qed.



(** What [fixed] writes, read back. *)
Lemma fixed_read k n :
  (0 < k)%nat -> 0 <= n ->
  exists ip fp,
    Py.fixed k n = (ip ++ "." ++ fp)%string /\
    ip <> EmptyString /\ all_digits ip /\
    String.length fp = k /\ all_digits fp /\
    read_int ip = Some (n / 10 ^ Z.of_nat k) /\
    read_int fp = Some (n mod 10 ^ Z.of_nat k).
Proof.
  intros Hk Hn.
  assert (Hp : 0 < 10 ^ Z.of_nat k) by (apply Z.pow_pos_nonneg; lia).
  exists (Py.str (n / 10 ^ Z.of_nat k)), (Py.digits k (n mod 10 ^ Z.of_nat k)).
  split; [reflexivity|].
  split; [apply str_nonempty|].
  split; [apply str_all_digits, Z.div_pos; lia|].
  split; [apply digits_length|].
  split; [apply digits_all_digits|].
  split; [apply read_int_str|].
  apply read_int_digits; [exact Hk|].
  apply Z.mod_pos_bound. exact Hp.
Qed.

End FeeRate.

(** ** Splitting a string *)

Section Split.

Variable sep : ascii.

Lemma split_lacks p : lacks sep p -> Py.split sep p = [p].
Proof.
  induction p as [|c p IH]; simpl; [reflexivity|].
  intros [Hc Hp]. rewrite IH by exact Hp.
  destruct (Ascii.eqb_spec c sep); [contradiction | reflexivity].
Qed.

Lemma split_lacks_app p s :
  lacks sep p ->
  Py.split sep (p ++ String sep s) = p :: Py.split sep s.
Proof.
  induction p as [|c p IH]; simpl.
  - intros _. rewrite Ascii.eqb_refl. reflexivity.
  - intros [Hc Hp]. rewrite IH by exact Hp.
    destruct (Ascii.eqb_spec c sep); [contradiction | reflexivity].
Qed.

(** The first piece, and what is split after it. *)
Lemma split_inv s :
  exists p, lacks sep p /\
    (s = p /\ Py.split sep s = [p] \/
     exists s', s = (p ++ String sep s')%string /\
                Py.split sep s = p :: Py.split sep s').
Proof.
  induction s as [|c s (p & Hp & IH)].
  - exists EmptyString. split; [exact I | left; split; reflexivity].
  - simpl. destruct (Ascii.eqb_spec c sep) as [-> | Hc].
    + exists EmptyString. split; [exact I|]. right. exists s.
      split; reflexivity.
    + exists (String c p). split; [split; assumption|].
      destruct IH as [[-> ->] | (s' & -> & ->)].
      * left. split; reflexivity.
      * right. exists s'. split; reflexivity.
Qed.

Lemma append_empty_r (s : string) : (s ++ "")%string = s.
Proof. induction s; simpl; congruence. Qed.

(** The third element of the split is the third piece of the string. *)
Lemma split_third s seg :
  nth_error (Py.split sep s) 2 = Some seg <-> third_segment sep s seg.
Proof.
  split.
  - intros H.
    destruct (split_inv s) as (s0 & H0 & [[_ E] | (t1 & -> & E)]);
      rewrite E in H; [discriminate|].
    destruct (split_inv t1) as (s1 & H1 & [[_ E1] | (t2 & -> & E1)]);
      rewrite E1 in H; [discriminate|].
    destruct (split_inv t2) as (s2 & H2 & [[-> E2] | (t3 & -> & E2)]);
      rewrite E2 in H; injection H as <-.
    + exists s0, s1, EmptyString.
      rewrite append_empty_r. repeat split; auto.
    + exists s0, s1, (String sep t3). repeat split; eauto.
  - intros (s0 & s1 & rest & H0 & H1 & H2 & -> & Hrest).
    rewrite !split_lacks_app by assumption.
    destruct Hrest as [-> | (r & ->)].
    + rewrite append_empty_r, split_lacks by assumption. reflexivity.
    + rewrite split_lacks_app by assumption. reflexivity.
Qed.

Lemma split_pieces_lack s : Forall (lacks sep) (Py.split sep s).
Proof.
  induction s as [|c s IH]; simpl.
  - repeat constructor.
  - destruct (Ascii.eqb_spec c sep) as [-> | Hc].
    + constructor; [exact I | exact IH].
    + destruct (Py.split sep s) as [|p ps].
      * repeat constructor. exact Hc.
      * inversion IH; subst. constructor; [split|]; assumption.
Qed.

Lemma split_nonempty s : Py.split sep s <> [].
Proof.
  destruct (split_inv s) as (p & _ & [[_ E] | (s' & _ & E)]);
    rewrite E; discriminate.
Qed.

(** Joining the pieces with the separator gives the string back. *)
Lemma split_join s :
  String.concat (String sep EmptyString) (Py.split sep s) = s.
Proof.
  induction s as [|c s IH]; [reflexivity|].
  pose proof (split_nonempty s) as Hne.
  simpl Py.split. destruct (Ascii.eqb_spec c sep) as [-> | Hc].
  - destruct (Py.split sep s) as [|p ps]; [contradiction|].
    cbn [String.concat] in *. rewrite IH. reflexivity.
  - destruct (Py.split sep s) as [|p ps]; [contradiction|].
    rewrite <- IH. destruct ps; reflexivity.
Qed.

End Split.

(** ** The loop over the channels *)

Section Channels.

Variable rpc : LightningRpc.
Variable our_nodeid : string.

(** No entry of ours: the inner loop ends without appending. *)
Lemma scan_foreign ch ds :
  Forall (foreign our_nodeid) ds -> scan our_nodeid ch ds = Ok None.
Proof.
  induction 1 as [|d ds Hd _ IH]; simpl; [reflexivity|].
  destruct (String.eqb_spec (source d) our_nodeid); [contradiction|].
  exact IH.
Qed.

(** The first entry of ours decides, whatever follows it. *)
Lemma scan_first ch pre d post :
  Forall (foreign our_nodeid) pre -> source d = our_nodeid ->
  scan our_nodeid ch (pre ++ d :: post) = (e <- entry ch d ;; Ok (Some e)).
Proof.
  intros Hpre Hd.
  induction Hpre as [|d' ds Hd' _ IH]; simpl.
  - rewrite Hd, String.eqb_refl. reflexivity.
  - destruct (String.eqb_spec (source d') our_nodeid); [contradiction|].
    exact IH.
Qed.

Lemma scan_cases ds :
  Forall (foreign our_nodeid) ds \/
  exists pre d post,
    ds = pre ++ d :: post /\ Forall (foreign our_nodeid) pre /\ source d = our_nodeid.
Proof.
  induction ds as [|d ds IH]; [left; constructor|].
  destruct (String.eqb_spec (source d) our_nodeid) as [E | N].
  - right. exists [], d, ds. repeat split; [constructor | exact E].
  - destruct IH as [IH | (pre & d' & post & -> & Hpre & Hd')].
    + left. constructor; assumption.
    + right. exists (d :: pre), d', post.
      repeat split; [constructor; assumption | exact Hd'].
Qed.

Lemma scan_Some ch ds e :
  scan our_nodeid ch ds = Ok (Some e) ->
  exists pre d post,
    ds = pre ++ d :: post /\ Forall (foreign our_nodeid) pre /\
    source d = our_nodeid /\ entry ch d = Ok e.
Proof.
  intros H.
  destruct (scan_cases ds) as [F | (pre & d & post & -> & Hpre & Hd)].
  - rewrite scan_foreign in H by exact F. discriminate.
  - exists pre, d, post. repeat split; try assumption.
    rewrite scan_first in H by assumption.
    destruct (entry ch d); simpl in H; congruence.
Qed.

(** The list built so far only grows at its end. *)
Lemma collect_acc chs : forall acc,
  collect rpc our_nodeid chs acc =
  (l <- collect rpc our_nodeid chs [] ;; Ok (acc ++ l)).
Proof.
  induction chs as [|ch chs IH]; intros acc; simpl.
  - rewrite app_nil_r. reflexivity.
  - destruct (scan our_nodeid ch _) as [[e|]|x]; simpl; try reflexivity.
    + rewrite IH, (IH [e]).
      destruct (collect rpc our_nodeid chs []); simpl; [|reflexivity].
      rewrite <- app_assoc. reflexivity.
    + apply IH.
Qed.

Lemma collect_cons ch chs :
  collect rpc our_nodeid (ch :: chs) [] =
  (found <- scan our_nodeid ch (listchannels rpc (short_channel_id ch)) ;;
   l <- collect rpc our_nodeid chs [] ;;
   Ok (match found with Some e => e :: l | None => l end)).
Proof.
  simpl. destruct (scan our_nodeid ch _) as [[e|]|x]; simpl; try reflexivity.
  - rewrite collect_acc. reflexivity.
  - destruct (collect rpc our_nodeid chs []); reflexivity.
Qed.

Lemma collect_app chs1 chs2 :
  collect rpc our_nodeid (chs1 ++ chs2) [] =
  (l1 <- collect rpc our_nodeid chs1 [] ;;
   l2 <- collect rpc our_nodeid chs2 [] ;;
   Ok (l1 ++ l2)).
Proof.
  induction chs1 as [|ch chs1 IH].
  - simpl. destruct (collect rpc our_nodeid chs2 []); reflexivity.
  - rewrite <- app_comm_cons, !collect_cons, IH.
    destruct (scan our_nodeid ch _) as [[e|]|x]; simpl; try reflexivity;
      destruct (collect rpc our_nodeid chs1 []); simpl; try reflexivity;
      destruct (collect rpc our_nodeid chs2 []); reflexivity.
Qed.

(** Every element of the result was appended for some channel. *)
Lemma collect_In chs : forall l e,
  collect rpc our_nodeid chs [] = Ok l -> In e l ->
  exists ch, In ch chs /\
    scan our_nodeid ch (listchannels rpc (short_channel_id ch)) = Ok (Some e).
Proof.
  induction chs as [|ch chs IH]; intros l e H Hin.
  - injection H as <-. contradiction.
  - rewrite collect_cons in H.
    apply bind_Ok in H. destruct H as (found & Hf & H).
    apply bind_Ok in H. destruct H as (l' & Hl' & H).
    injection H as <-.
    destruct found as [e'|].
    + destruct Hin as [-> | Hin].
      * exists ch. split; [left; reflexivity | exact Hf].
      * destruct (IH l' e Hl' Hin) as (ch' & Hch' & Hs).
        exists ch'. split; [right; exact Hch' | exact Hs].
    + destruct (IH l' e Hl' Hin) as (ch' & Hch' & Hs).
      exists ch'. split; [right; exact Hch' | exact Hs].
Qed.

Lemma collect_length chs : forall l,
  collect rpc our_nodeid chs [] = Ok l ->
  (List.length l <= List.length chs)%nat.
Proof.
  induction chs as [|ch chs IH]; intros l H.
  - injection H as <-. simpl. lia.
  - rewrite collect_cons in H.
    apply bind_Ok in H. destruct H as (found & Hf & H).
    apply bind_Ok in H. destruct H as (l' & Hl' & H).
    injection H as <-. specialize (IH l' Hl').
    destruct found; simpl; lia.
Qed.

(** The parts of a report that was returned. *)
Lemma feereport_Ok tz now r :
  feereport rpc our_nodeid tz now = Ok r ->
  collect rpc our_nodeid (listfunds rpc) [] = Ok (channel_fees r) /\
  sat_str (day_sum (fee_sums rpc tz now)) = Ok (day_fee_sum r) /\
  sat_str (week_sum (fee_sums rpc tz now)) = Ok (week_fee_sum r) /\
  sat_str (month_sum (fee_sums rpc tz now)) = Ok (month_fee_sum r).
Proof.
  unfold feereport. intros H.
  apply bind_Ok in H. destruct H as (fees & Hfees & H).
  apply bind_Ok in H. destruct H as (d & Hd & H).
  apply bind_Ok in H. destruct H as (w & Hw & H).
  apply bind_Ok in H. destruct H as (m & Hm & H).
  injection H as <-. simpl. auto.
Qed.

(** Where an element of [channel_fees] comes from. *)
Lemma emitted tz now r e :
  feereport rpc our_nodeid tz now = Ok r -> In e (channel_fees r) ->
  exists ch d,
    In ch (listfunds rpc) /\
    In d (listchannels rpc (short_channel_id ch)) /\
    source d = our_nodeid /\ entry ch d = Ok e.
Proof.
  intros H Hin. apply feereport_Ok in H. destruct H as (Hc & _).
  destruct (collect_In _ _ _ Hc Hin) as (ch & Hch & Hs).
  apply scan_Some in Hs.
  destruct Hs as (pre & d & post & E & _ & Hd & He).
  exists ch, d. repeat split; try assumption.
  rewrite E. apply in_or_app. right. left. reflexivity.
Qed.

Lemma entry_Ok ch d e :
  entry ch d = Ok e ->
  exists out rate,
    funding_output_str ch = Ok out /\
    Py.truediv (fee_per_millionth d) 1000000 = Ok rate /\
    e = {| chan_point := (funding_txid ch ++ ":" ++ out)%string;
           base_fee_msat := Py.str (base_fee_millisatoshi d);
           fee_per_mil := Py.str (fee_per_millionth d);
           fee_rate := Py.format_f 8 rate |}.
Proof.
  unfold entry. intros H.
  apply bind_Ok in H. destruct H as (out & Hout & H).
  apply bind_Ok in H. destruct H as (rate & Hrate & H).
  injection H as <-. eauto.
Qed.

Lemma funding_output_str_Ok ch out :
  funding_output_str ch = Ok out ->
  match funding_output ch with
  | Some n => out = Py.str n
  | None => third_segment "x" (short_channel_id ch) out
  end.
Proof.
  unfold funding_output_str, Py.index.
  destruct (funding_output ch) as [n|].
  - congruence.
  - destruct (nth_error _ 2) as [seg|] eqn:E; [|discriminate].
    intros [= <-]. apply split_third. exact E.
Qed.

End Channels.

(** ** The loop over the forwards *)

Section Forwards.

(** [>] on timestamps is the strict order. *)
Lemma gt_spec x y : Py.gt x y = true <-> (y < x)%Q.
Proof.
  unfold Py.gt. rewrite negb_true_iff, <- not_true_iff_false, Qle_bool_iff.
  split; [apply Qnot_le_lt | apply Qlt_not_le].
Qed.

Lemma fee_data_app l1 l2 : fee_data (l1 ++ l2) = fee_data l1 ++ fee_data l2.
Proof.
  induction l1 as [|f l1 IH]; simpl; [reflexivity|].
  destruct (String.eqb (status f) "settled"); [destruct (resolved_time f)|];
    simpl; congruence.
Qed.

Lemma fee_data_skip f :
  qualifies f = false -> fee_data [f] = [].
Proof.
  unfold qualifies. simpl.
  destruct (String.eqb (status f) "settled"); destruct (resolved_time f);
    simpl; congruence.
Qed.

Lemma fee_data_fee l x :
  In x (fee_data l) -> exists f, In f l /\ fee f = fst x.
Proof.
  induction l as [|f l IH]; simpl; [contradiction|].
  assert (Hrec : In x (fee_data l) -> exists f0, (f = f0 \/ In f0 l) /\ fee f0 = fst x).
  { intros H. destruct (IH H) as (f0 & H0 & E). eauto. }
  destruct (String.eqb (status f) "settled"); [destruct (resolved_time f)|];
    try exact Hrec.
  intros [<- | H]; [exists f; auto | exact (Hrec H)].
Qed.

Variables day_cut week_cut month_cut : Q.

(** One turn of the loop adds the fee to the sums whose cutoffs, and the
    cutoffs of the wider windows, the event is after. *)
Lemma tally_spec acc x :
  tally day_cut week_cut month_cut acc x =
  {| day_sum := day_sum acc +
       (if after_all [month_cut; week_cut; day_cut] x then fst x else 0);
     week_sum := week_sum acc +
       (if after_all [month_cut; week_cut] x then fst x else 0);
     month_sum := month_sum acc +
       (if after_all [month_cut] x then fst x else 0) |}.
Proof.
  unfold tally, after_all. simpl. destruct acc as [d w m]. simpl.
  destruct (Py.gt (snd x) month_cut); destruct (Py.gt (snd x) week_cut);
    destruct (Py.gt (snd x) day_cut); simpl; f_equal; lia.
Qed.

Lemma fees_after_cons cs x data :
  fees_after cs (x :: data) =
  (if after_all cs x then fst x else 0) + fees_after cs data.
Proof.
  unfold fees_after. simpl. destruct (after_all cs x); reflexivity.
Qed.

Lemma fold_tally data : forall acc,
  fold_left (tally day_cut week_cut month_cut) data acc =
  {| day_sum := day_sum acc
                + fees_after [month_cut; week_cut; day_cut] data;
     week_sum := week_sum acc + fees_after [month_cut; week_cut] data;
     month_sum := month_sum acc + fees_after [month_cut] data |}.
Proof.
  induction data as [|x data IH]; intros acc.
  - destruct acc. simpl. unfold fees_after. simpl. f_equal; lia.
  - simpl fold_left. rewrite IH, tally_spec, !fees_after_cons. simpl.
    f_equal; lia.
Qed.

(** With fees that are not negative the sums stay ordered. *)
Lemma fold_tally_ordered data : forall acc,
  Forall (fun x => 0 <= fst x) data ->
  0 <= day_sum acc <= week_sum acc /\ week_sum acc <= month_sum acc ->
  let s := fold_left (tally day_cut week_cut month_cut) data acc in
  0 <= day_sum s <= week_sum s /\ week_sum s <= month_sum s.
Proof.
  induction data as [|x data IH]; intros acc Hpos Hacc; [exact Hacc|].
  inversion Hpos as [|? ? Hx Hdata]; subst.
  simpl. apply IH; [exact Hdata|].
  unfold tally. destruct acc as [d w m]. simpl in *.
  destruct (Py.gt (snd x) month_cut); destruct (Py.gt (snd x) week_cut);
    destruct (Py.gt (snd x) day_cut); simpl; lia.
Qed.

(** The sums are bounded by the fees that were seen. *)
Lemma fold_tally_bounded bound data : forall acc,
  Forall (fun x => Z.abs (fst x) <= bound) data ->
  let s := fold_left (tally day_cut week_cut month_cut) data acc in
  Z.abs (day_sum s) <= Z.abs (day_sum acc) + Z.of_nat (List.length data) * bound /\
  Z.abs (week_sum s) <= Z.abs (week_sum acc) + Z.of_nat (List.length data) * bound /\
  Z.abs (month_sum s) <= Z.abs (month_sum acc) + Z.of_nat (List.length data) * bound.
Proof.
  induction data as [|x data IH]; intros acc Hb.
  - simpl. lia.
  - inversion Hb as [|? ? Hx Hdata]; subst.
    simpl fold_left. specialize (IH (tally day_cut week_cut month_cut acc x) Hdata).
    cbv zeta in *.
    set (acc' := tally day_cut week_cut month_cut acc x) in *.
    assert (Hstep : Z.abs (day_sum acc') <= Z.abs (day_sum acc) + bound /\
                    Z.abs (week_sum acc') <= Z.abs (week_sum acc) + bound /\
                    Z.abs (month_sum acc') <= Z.abs (month_sum acc) + bound).
    { clear IH. subst acc'. unfold tally. destruct acc as [d w m]. simpl in *.
      destruct (Py.gt (snd x) month_cut); destruct (Py.gt (snd x) week_cut);
        destruct (Py.gt (snd x) day_cut); simpl; lia. }
    change (List.length (x :: data)) with (S (List.length data)).
    rewrite Nat2Z.inj_succ. lia.
Qed.

End Forwards.

(** ** Supporting facts for the report *)

Section Report.

Variable rpc : LightningRpc.
Variable our_nodeid : string.

(** The records of the report, channel by channel, in the order of
    [listfunds]. *)
Lemma collect_spec chs : forall l,
  collect rpc our_nodeid chs [] = Ok l ->
  exists founds,
    Forall2 (fun ch found =>
               scan our_nodeid ch (listchannels rpc (short_channel_id ch))
               = Ok found) chs founds /\
    l = flat_map appended founds.
Proof.
  induction chs as [|ch chs IH]; intros l H.
  - injection H as <-. exists []. split; [constructor | reflexivity].
  - rewrite collect_cons in H.
    apply bind_Ok in H. destruct H as (found & Hf & H).
    apply bind_Ok in H. destruct H as (l' & Hl' & H).
    injection H as <-.
    destruct (IH l' Hl') as (founds & HF & ->).
    exists (found :: founds). split; [constructor; assumption|].
    destruct found; reflexivity.
Qed.

Lemma fee_data_length l : (List.length (fee_data l) <= List.length l)%nat.
Proof.
  induction l as [|f l IH]; simpl; [lia|].
  destruct (String.eqb (status f) "settled"); [destruct (resolved_time f)|];
    simpl; lia.
Qed.

(** With fees and a number of forwards that fit 64 bits, the sums are
    far below the range of a float. *)
Lemma fee_sums_fit tz now :
  Forall (fun f => Z.abs (fee f) < 2 ^ 64) (listforwards rpc) ->
  Z.of_nat (List.length (listforwards rpc)) < 2 ^ 64 ->
  Z.abs (day_sum (fee_sums rpc tz now)) < 2 ^ 1000 /\
  Z.abs (week_sum (fee_sums rpc tz now)) < 2 ^ 1000 /\
  Z.abs (month_sum (fee_sums rpc tz now)) < 2 ^ 1000.
Proof.
  intros Hfee Hlen. unfold fee_sums.
  set (data := fee_data (listforwards rpc)).
  assert (Hdata : Forall (fun x => Z.abs (fst x) <= 2 ^ 64) data).
  { apply Forall_forall. intros x Hx.
    destruct (fee_data_fee _ _ Hx) as (f & Hf & <-).
    rewrite Forall_forall in Hfee. specialize (Hfee f Hf). lia. }
  pose proof (fee_data_length (listforwards rpc)) as Hl. fold data in Hl.
  pose proof (fold_tally_bounded
                (day_ago tz now) (week_ago tz now) (month_ago tz now)
                (2 ^ 64) data
                {| day_sum := 0; week_sum := 0; month_sum := 0 |} Hdata) as B.
  cbv zeta in B. simpl day_sum in B. simpl week_sum in B.
  simpl month_sum in B. simpl Z.abs in B.
  assert (Hsmall : 2 ^ 64 * 2 ^ 64 < 2 ^ 1000) by reflexivity.
  assert (H64 : 0 < 2 ^ 64) by reflexivity.
  assert (Hn : Z.of_nat (List.length data) * 2 ^ 64 < 2 ^ 1000) by nia.
  lia.
Qed.

End Report.

Section Decimal8.




(** [fixed 8] writes the numeral of [n / 10^8]. *)
Lemma fixed_decimal8 n : 0 <= n -> decimal8 (Py.fixed 8 n) (n # 100000000).
Proof.
  intros Hn.
  destruct (fixed_read 8 n ltac:(lia) Hn)
    as (ip & fp & E & Hne & Hip & Hlen & Hfp & Hi & Hf).
  exists ip, fp, (n / 10 ^ Z.of_nat 8), (n mod 10 ^ Z.of_nat 8).
  repeat split; try assumption.
  change (10 ^ Z.of_nat 8) with 100000000.
  pose proof (Z.div_mod n 100000000 ltac:(lia)) as D.
  unfold Qeq, Qplus, inject_Z. simpl Qnum. simpl Qden. lia.
Qed.

End Decimal8.

(** * The properties of the report *)

(** C1: with one funded channel of short channel id ["700000x1x0"],
    funding transaction ["abcd"] and no funding output, whose listing has
    the single entry sourced by our node with base fee 1000 and
    proportional fee 100, the list [channel_fees] is exactly the record
    [abcd:0 / 1000 / 100 / 0.00010000]: the loop over the channels
    builds it, every returned report carries it, and the report is
    returned whenever the fees and the number of the forwards fit 64
    bits. *)
Theorem feereport_end_to_end
  (our_nodeid : string) (lc : string -> list detail) (fw : list forward)
  (tz : Py.zone) (now : Py.datetime) :
  lc "700000x1x0"%string = [example_detail our_nodeid] ->
  collect {| listfunds := [example_channel]; listchannels := lc;
             listforwards := fw |} our_nodeid [example_channel] []
  = Ok [example_entry] /\
  (forall r,
     feereport {| listfunds := [example_channel]; listchannels := lc;
                  listforwards := fw |} our_nodeid tz now = Ok r ->
     channel_fees r = [example_entry]) /\
  (Forall (fun f => Z.abs (fee f) < 2 ^ 64) fw ->
   Z.of_nat (List.length fw) < 2 ^ 64 ->
   exists day week month,
     feereport {| listfunds := [example_channel]; listchannels := lc;
                  listforwards := fw |} our_nodeid tz now
     = Ok {| channel_fees := [example_entry]; day_fee_sum := day;
             week_fee_sum := week; month_fee_sum := month |}).
Proof.
  intros Hlc.
  set (rpc := {| listfunds := [example_channel]; listchannels := lc;
                 listforwards := fw |}).
  assert (Hc : collect rpc our_nodeid [example_channel] [] = Ok [example_entry]).
  { cbn [collect]. change (listchannels rpc) with lc.
    change (short_channel_id example_channel) with "700000x1x0"%string.
    rewrite Hlc. cbn [scan example_detail source].
    rewrite String.eqb_refl. reflexivity. }
  split; [exact Hc|]. split.
  - intros r Hr. apply feereport_Ok in Hr. destruct Hr as [Hr _].
    change (listfunds rpc) with [example_channel] in Hr. congruence.
  - intros Hfee Hlen.
    destruct (fee_sums_fit rpc tz now Hfee Hlen) as (Hd & Hw & Hm).
    destruct (sat_str_fits _ Hd) as [day Eday].
    destruct (sat_str_fits _ Hw) as [week Eweek].
    destruct (sat_str_fits _ Hm) as [month Emonth].
    exists day, week, month. unfold feereport.
    change (listfunds rpc) with [example_channel].
    rewrite Hc. cbn [bind]. rewrite Eday, Eweek, Emonth. reflexivity.
Qed.

Lemma feereport_end_to_end_witness :
  (fun _ : string => [example_detail "02aa"]) "700000x1x0"%string
  = [example_detail "02aa"] /\
  exists day week month,
    feereport {| listfunds := [example_channel];
                 listchannels := fun _ => [example_detail "02aa"];
                 listforwards := [settled_at 1999 (1700000000 # 1)] |}
              "02aa" Py.utc 1700003600000000
    = Ok {| channel_fees := [example_entry]; day_fee_sum := day;
            week_fee_sum := week; month_fee_sum := month |}.
Proof.
  split; [reflexivity|].
  destruct (feereport_end_to_end "02aa"
              (fun _ => [example_detail "02aa"])
              [settled_at 1999 (1700000000 # 1)] Py.utc 1700003600000000
              eq_refl) as (_ & _ & H).
  apply H.
  - repeat constructor.
  - reflexivity.
Defined.

(** C6: a funded channel whose listing has no entry sourced by our node
    leaves the inner loop with nothing appended and nothing raised, and
    the report is the one obtained without that channel: no record, no
    error, no placeholder, the other channels as usual. *)
Theorem foreign_channel_skipped
  (our_nodeid : string) (lc : string -> list detail) (fw : list forward)
  (before after : list channel) (ch : channel)
  (tz : Py.zone) (now : Py.datetime) :
  Forall (fun d => source d <> our_nodeid) (lc (short_channel_id ch)) ->
  scan our_nodeid ch (lc (short_channel_id ch)) = Ok None /\
  feereport {| listfunds := before ++ ch :: after; listchannels := lc;
               listforwards := fw |} our_nodeid tz now
  = feereport {| listfunds := before ++ after; listchannels := lc;
                 listforwards := fw |} our_nodeid tz now.
Proof.
  intros Hforeign.
  pose proof (scan_foreign our_nodeid ch _ Hforeign) as Hscan.
  split; [exact Hscan|].
  unfold feereport. cbn [listfunds].
  change (fee_sums {| listfunds := before ++ ch :: after; listchannels := lc;
                      listforwards := fw |} tz now)
    with (fee_sums {| listfunds := before ++ after; listchannels := lc;
                      listforwards := fw |} tz now).
  f_equal.
  rewrite !collect_app, collect_cons. cbn [listchannels].
  rewrite Hscan. cbn [bind].
  assert (E : forall chs,
    collect {| listfunds := before ++ ch :: after; listchannels := lc;
               listforwards := fw |} our_nodeid chs []
    = collect {| listfunds := before ++ after; listchannels := lc;
                 listforwards := fw |} our_nodeid chs []).
  { induction chs as [|c chs IH]; [reflexivity|].
    rewrite !collect_cons, IH. reflexivity. }
  rewrite !E.
  destruct (collect _ our_nodeid before []); cbn [bind]; [|reflexivity].
  destruct (collect _ our_nodeid after []); reflexivity.
Qed.

Lemma foreign_channel_skipped_witness :
  Forall (fun d => source d <> "02aa"%string) [example_detail "03bb"] /\
  feereport {| listfunds := [example_channel];
               listchannels := fun _ => [example_detail "03bb"];
               listforwards := [] |} "02aa" Py.utc 0
  = Ok {| channel_fees := []; day_fee_sum := "0"; week_fee_sum := "0";
          month_fee_sum := "0" |}.
Proof.
  assert (H : Forall (fun d => source d <> "02aa"%string)
                [example_detail "03bb"]).
  { repeat constructor. discriminate. }
  split; [exact H|].
  destruct (foreign_channel_skipped "02aa"
              (fun _ => [example_detail "03bb"]) [] [] []
              example_channel Py.utc 0 H)
    as [_ E].
  exact E.
Defined.

(** C7: every record of [channel_fees] was built for a funded channel
    and for an entry of its listing sourced by our node, and its
    [chan_point] is the funding transaction id of that channel, a colon
    and an output index: the decimal writing of the channel's
    [funding_output] when the field is present, the third piece of its
    short channel id cut at every ["x"] otherwise. *)
Theorem chan_point_spec
  (rpc : LightningRpc) (our_nodeid : string) (tz : Py.zone) (now : Py.datetime)
  (r : report) (e : fee_entry) :
  feereport rpc our_nodeid tz now = Ok r -> In e (channel_fees r) ->
  exists ch d index,
    In ch (listfunds rpc) /\
    In d (listchannels rpc (short_channel_id ch)) /\
    source d = our_nodeid /\ entry ch d = Ok e /\
    chan_point e = (funding_txid ch ++ ":" ++ index)%string /\
    match funding_output ch with
    | Some n => index = Py.str n
    | None => third_segment "x" (short_channel_id ch) index
    end.
Proof.
  intros Hr Hin.
  destruct (emitted _ _ _ _ _ _ Hr Hin) as (ch & d & Hch & Hd & Hsrc & He).
  destruct (entry_Ok _ _ _ He) as (out & rate & Hout & _ & ->).
  exists ch, d, out. repeat split; try assumption.
  apply funding_output_str_Ok. exact Hout.
Qed.

Lemma chan_point_spec_witness :
  exists r e,
    feereport {| listfunds := [example_channel];
                 listchannels := fun _ => [example_detail "02aa"];
                 listforwards := [] |} "02aa" Py.utc 0 = Ok r /\
    In e (channel_fees r) /\
    exists ch d index,
      In ch [example_channel] /\ In d [example_detail "02aa"] /\
      source d = "02aa"%string /\ entry ch d = Ok e /\
      chan_point e = (funding_txid ch ++ ":" ++ index)%string /\
      match funding_output ch with
      | Some n => index = Py.str n
      | None => third_segment "x" (short_channel_id ch) index
      end.
Proof.
  exists {| channel_fees := [example_entry]; day_fee_sum := "0";
            week_fee_sum := "0"; month_fee_sum := "0" |}, example_entry.
  assert (H1 : feereport {| listfunds := [example_channel];
                            listchannels := fun _ => [example_detail "02aa"];
                            listforwards := [] |} "02aa" Py.utc 0
               = Ok {| channel_fees := [example_entry]; day_fee_sum := "0";
                       week_fee_sum := "0"; month_fee_sum := "0" |})
    by (vm_compute; reflexivity).
  assert (H2 : In example_entry [example_entry]) by (simpl; auto).
  split; [exact H1|]. split; [exact H2|].
  exact (chan_point_spec _ _ _ _ _ _ H1 H2).
Defined.

(** C8, as the code has it: for a channel without the [funding_output]
    field, the output index in [chan_point] is the third piece of the
    short channel id cut at every ["x"]; the separator is ["x"], not a
    colon. *)
Theorem output_index_from_short_channel_id
  (rpc : LightningRpc) (our_nodeid : string) (tz : Py.zone) (now : Py.datetime)
  (r : report) (e : fee_entry) :
  feereport rpc our_nodeid tz now = Ok r -> In e (channel_fees r) ->
  exists ch d,
    In ch (listfunds rpc) /\
    In d (listchannels rpc (short_channel_id ch)) /\
    source d = our_nodeid /\ entry ch d = Ok e /\
    (funding_output ch = None ->
     exists index,
       third_segment "x" (short_channel_id ch) index /\
       chan_point e = (funding_txid ch ++ ":" ++ index)%string).
Proof.
  intros Hr Hin.
  destruct (emitted _ _ _ _ _ _ Hr Hin) as (ch & d & Hch & Hd & Hsrc & He).
  exists ch, d. repeat split; try assumption.
  intros Hnone.
  destruct (entry_Ok _ _ _ He) as (out & rate & Hout & _ & ->).
  apply funding_output_str_Ok in Hout. rewrite Hnone in Hout.
  exists out. split; [exact Hout | reflexivity].
Qed.

Lemma output_index_from_short_channel_id_witness :
  exists r e,
    feereport {| listfunds := [example_channel];
                 listchannels := fun _ => [example_detail "02aa"];
                 listforwards := [] |} "02aa" Py.utc 0 = Ok r /\
    In e (channel_fees r) /\
    exists ch d,
      In ch [example_channel] /\ In d [example_detail "02aa"] /\
      source d = "02aa"%string /\ entry ch d = Ok e /\
      (funding_output ch = None ->
       exists index,
         third_segment "x" (short_channel_id ch) index /\
         chan_point e = (funding_txid ch ++ ":" ++ index)%string).
Proof.
  exists {| channel_fees := [example_entry]; day_fee_sum := "0";
            week_fee_sum := "0"; month_fee_sum := "0" |}, example_entry.
  assert (H1 : feereport {| listfunds := [example_channel];
                            listchannels := fun _ => [example_detail "02aa"];
                            listforwards := [] |} "02aa" Py.utc 0
               = Ok {| channel_fees := [example_entry]; day_fee_sum := "0";
                       week_fee_sum := "0"; month_fee_sum := "0" |})
    by (vm_compute; reflexivity).
  assert (H2 : In example_entry [example_entry]) by (simpl; auto).
  split; [exact H1|]. split; [exact H2|].
  exact (output_index_from_short_channel_id _ _ _ _ _ _ H1 H2).
Defined.

(** C8, as stated, fails: the example channel has no [funding_output],
    its record is emitted with the output index ["0"], and its short
    channel id ["700000x1x0"] has no third piece when cut at colons. *)
Lemma colon_delimited_counterexample :
  exists r e,
    feereport {| listfunds := [example_channel];
                 listchannels := fun _ => [example_detail "02aa"];
                 listforwards := [] |} "02aa" Py.utc 0 = Ok r /\
    channel_fees r = [e] /\
    funding_output example_channel = None /\
    chan_point e = "abcd:0"%string /\
    ~ exists index,
        third_segment ":" (short_channel_id example_channel) index /\
        chan_point e = (funding_txid example_channel ++ ":" ++ index)%string.
Proof.
  exists {| channel_fees := [example_entry]; day_fee_sum := "0";
            week_fee_sum := "0"; month_fee_sum := "0" |}, example_entry.
  split; [vm_compute; reflexivity|].
  split; [reflexivity|]. split; [reflexivity|]. split; [reflexivity|].
  intros (index & H & _).
  apply split_third in H. discriminate H.
Qed.

(** C10: each funded channel contributes at most one record.  The inner
    loop stops at the first entry sourced by our node, whatever entries
    follow it, ours or not; the records of a returned report are, channel
    by channel and in order, what that loop found, none or one; so there
    are no more records than channels. *)
Theorem one_record_per_channel
  (rpc : LightningRpc) (our_nodeid : string) :
  (forall ch pre d post,
     Forall (fun d' => source d' <> our_nodeid) pre ->
     source d = our_nodeid ->
     scan our_nodeid ch (pre ++ d :: post)
     = (e <- entry ch d ;; Ok (Some e))) /\
  (forall tz now r,
     feereport rpc our_nodeid tz now = Ok r ->
     (exists founds,
        Forall2 (fun ch found =>
                   scan our_nodeid ch (listchannels rpc (short_channel_id ch))
                   = Ok found) (listfunds rpc) founds /\
        channel_fees r = flat_map appended founds) /\
     (List.length (channel_fees r) <= List.length (listfunds rpc))%nat).
Proof.
  split.
  - intros ch pre d post Hpre Hd. apply scan_first; assumption.
  - intros tz now r Hr. apply feereport_Ok in Hr. destruct Hr as [Hc _].
    split; [apply collect_spec | apply (collect_length rpc our_nodeid)];
      exact Hc.
Qed.

Lemma one_record_per_channel_witness :
  Forall (fun d' => source d' <> "02aa"%string) [example_detail "03bb"] /\
  source (example_detail "02aa") = "02aa"%string /\
  scan "02aa" example_channel
    ([example_detail "03bb"] ++ example_detail "02aa"
       :: [ {| source := "02aa"; base_fee_millisatoshi := 7;
               fee_per_millionth := 9 |} ])
  = Ok (Some example_entry).
Proof.
  assert (H : Forall (fun d' => source d' <> "02aa"%string)
                [example_detail "03bb"]).
  { repeat constructor. discriminate. }
  split; [exact H|]. split; [reflexivity|].
  destruct (one_record_per_channel
              {| listfunds := []; listchannels := fun _ => [];
                 listforwards := [] |} "02aa") as [S _].
  rewrite (S example_channel [example_detail "03bb"] (example_detail "02aa")
             [ {| source := "02aa"; base_fee_millisatoshi := 7;
                  fee_per_millionth := 9 |} ] H eq_refl).
  reflexivity.
Defined.

(** ** The cutoffs and elapsed time *)

Section Elapsed.




End Elapsed.




(** C3, at an input where the code departs from it: a total of
    17592186044416999 millisatoshi is 17592186044416 satoshi by
    truncating integer division, and the report says 17592186044417,
    the float quotient having been rounded up to the next integer
    before truncation.  The total 1999 does give ["1"]. *)
Theorem satoshi_sum_rounded_up :
  sat_str 17592186044416999 = Ok "17592186044417"%string /\
  Py.str (Z.quot 17592186044416999 1000) = "17592186044416"%string /\
  sat_str 1999 = Ok "1"%string /\
  feereport
    {| listfunds := []; listchannels := fun _ => [];
       listforwards :=
         [settled_at 17592186044416999
            (Py.timestamp Py.utc (1700000000000000 - Py.hours 2))] |}
    "02aa" Py.utc 1700000000000000
  = Ok {| channel_fees := [];
          day_fee_sum := "17592186044417";
          week_fee_sum := "17592186044417";
          month_fee_sum := "17592186044417" |}.
Proof. repeat split; vm_compute; reflexivity. Qed.

(** C5: a forward whose status is not ["settled"], or which has no
    [resolved_time], contributes to none of the sums: it is not in
    [fee_data], and the sums and the whole report are those obtained
    without it. *)
Theorem unqualified_forward_ignored
  (our_nodeid : string) (chs : list channel) (lc : string -> list detail)
  (before after : list forward) (f : forward)
  (tz : Py.zone) (now : Py.datetime) :
  status f <> "settled"%string \/ resolved_time f = None ->
  fee_data (before ++ f :: after) = fee_data (before ++ after) /\
  fee_sums {| listfunds := chs; listchannels := lc;
              listforwards := before ++ f :: after |} tz now
  = fee_sums {| listfunds := chs; listchannels := lc;
                listforwards := before ++ after |} tz now /\
  feereport {| listfunds := chs; listchannels := lc;
               listforwards := before ++ f :: after |} our_nodeid tz now
  = feereport {| listfunds := chs; listchannels := lc;
                 listforwards := before ++ after |} our_nodeid tz now.
Proof.
  intros Hf.
  assert (Hq : qualifies f = false).
  { unfold qualifies. destruct Hf as [Hs | ->].
    - apply String.eqb_neq in Hs. rewrite Hs. reflexivity.
    - apply andb_false_r. }
  assert (Hdata : fee_data (before ++ f :: after) = fee_data (before ++ after)).
  { change (f :: after) with ([f] ++ after).
    rewrite !fee_data_app, fee_data_skip by exact Hq. reflexivity. }
  assert (Hsums :
    fee_sums {| listfunds := chs; listchannels := lc;
                listforwards := before ++ f :: after |} tz now
    = fee_sums {| listfunds := chs; listchannels := lc;
                  listforwards := before ++ after |} tz now).
  { unfold fee_sums. cbn [listforwards]. rewrite Hdata. reflexivity. }
  split; [exact Hdata|]. split; [exact Hsums|].
  unfold feereport. rewrite Hsums. cbn [listfunds].
  assert (E : forall l acc,
    collect {| listfunds := chs; listchannels := lc;
               listforwards := before ++ f :: after |} our_nodeid l acc
    = collect {| listfunds := chs; listchannels := lc;
                 listforwards := before ++ after |} our_nodeid l acc).
  { induction l as [|c l IH]; intros acc; [reflexivity|].
    cbn [collect listchannels]. destruct (scan our_nodeid c _); cbn [bind];
      [apply IH | reflexivity]. }
  rewrite E. reflexivity.
Qed.

Lemma unqualified_forward_ignored_witness :
  (status {| fee := 5000; status := "failed";
             resolved_time := Some (1700000000 # 1) |} <> "settled"%string \/
   resolved_time {| fee := 5000; status := "failed";
                    resolved_time := Some (1700000000 # 1) |} = None) /\
  fee_sums {| listfunds := []; listchannels := fun _ => [];
              listforwards :=
                [] ++ {| fee := 5000; status := "failed";
                         resolved_time := Some (1700000000 # 1) |}
                   :: [settled_at 3000 (1700000000 # 1)] |}
           Py.utc 1700003600000000
  = {| day_sum := 3000; week_sum := 3000; month_sum := 3000 |}.
Proof.
  assert (H : status {| fee := 5000; status := "failed";
                        resolved_time := Some (1700000000 # 1) |}
              <> "settled"%string \/
              resolved_time {| fee := 5000; status := "failed";
                               resolved_time := Some (1700000000 # 1) |}
              = None) by (left; discriminate).
  split; [exact H|].
  destruct (unqualified_forward_ignored "02aa" [] (fun _ => []) []
              [settled_at 3000 (1700000000 # 1)] _ Py.utc 1700003600000000 H)
    as (_ & E & _).
  rewrite E. reflexivity.
Defined.

(** C9: when no forward has a negative fee, the three sums of a
    returned report, read as integers, satisfy
    day <= week <= month. *)
Theorem fee_sums_ordered
  (rpc : LightningRpc) (our_nodeid : string) (tz : Py.zone) (now : Py.datetime)
  (r : report) :
  Forall (fun f => 0 <= fee f) (listforwards rpc) ->
  feereport rpc our_nodeid tz now = Ok r ->
  exists day week month,
    read_int (day_fee_sum r) = Some day /\
    read_int (week_fee_sum r) = Some week /\
    read_int (month_fee_sum r) = Some month /\
    day <= week <= month.
Proof.
  intros Hfee Hr.
  apply feereport_Ok in Hr. destruct Hr as (_ & Hd & Hw & Hm).
  assert (Hdata : Forall (fun x => 0 <= fst x) (fee_data (listforwards rpc))).
  { apply Forall_forall. intros x Hx.
    destruct (fee_data_fee _ _ Hx) as (f & Hf & <-).
    rewrite Forall_forall in Hfee. exact (Hfee f Hf). }
  pose proof (fold_tally_ordered
                (day_ago tz now) (week_ago tz now) (month_ago tz now)
                _ {| day_sum := 0; week_sum := 0; month_sum := 0 |} Hdata) as O.
  cbv zeta in O. fold (fee_sums rpc tz now) in O.
  specialize (O ltac:(simpl; lia)). destruct O as [[O0 O1] O2].
  destruct (sat_str_mono _ _ _ _ (conj O0 O1) Hd Hw)
    as (day & week & Rd & Rw & Hdw).
  destruct (sat_str_mono _ _ _ _ (conj (Z.le_trans _ _ _ O0 O1) O2) Hw Hm)
    as (week' & month & Rw' & Rm & Hwm).
  rewrite Rw in Rw'. injection Rw' as <-.
  exists day, week, month. repeat split; try assumption; lia.
Qed.

Lemma fee_sums_ordered_witness :
  Forall (fun f => 0 <= fee f)
    [settled_at 1999 (Py.timestamp Py.utc (1700000000000000 - Py.hours 2));
     settled_at 2500 (Py.timestamp Py.utc (1700000000000000 - Py.days 5));
     settled_at 7000 (Py.timestamp Py.utc (1700000000000000 - Py.days 20))] /\
  exists day week month,
    read_int "1" = Some day /\ read_int "4" = Some week /\
    read_int "11" = Some month /\ day <= week <= month.
Proof.
  assert (H : Forall (fun f => 0 <= fee f)
    [settled_at 1999 (Py.timestamp Py.utc (1700000000000000 - Py.hours 2));
     settled_at 2500 (Py.timestamp Py.utc (1700000000000000 - Py.days 5));
     settled_at 7000 (Py.timestamp Py.utc (1700000000000000 - Py.days 20))]).
  { repeat constructor; simpl; lia. }
  split; [exact H|].
  refine (fee_sums_ordered
           {| listfunds := []; listchannels := fun _ => [];
              listforwards :=
                [settled_at 1999
                   (Py.timestamp Py.utc (1700000000000000 - Py.hours 2));
                 settled_at 2500
                   (Py.timestamp Py.utc (1700000000000000 - Py.days 5));
                 settled_at 7000
                   (Py.timestamp Py.utc (1700000000000000 - Py.days 20))] |}
           "02aa" Py.utc 1700000000000000
           {| channel_fees := []; day_fee_sum := "1"; week_fee_sum := "4";
              month_fee_sum := "11" |} H _).
  vm_compute. reflexivity.
Defined.




(** * Further properties of the report *)

(** ** The exceptions *)

Section Exceptions.

Lemma split_length sep s :
  List.length (Py.split sep s) = S (occurrences sep s).
Proof.
  induction s as [|c s IH]; [reflexivity|].
  simpl. destruct (Ascii.eqb c sep).
  - simpl. rewrite IH. reflexivity.
  - destruct (Py.split sep s) as [|p ps]; simpl in *; [discriminate | exact IH].
Qed.

(** [parts[2]] raises exactly when the separator occurs less than twice. *)
Lemma index_split_error sep s :
  Py.index (Py.split sep s) 2 = Raise IndexError <->
  (occurrences sep s < 2)%nat.
Proof.
  unfold Py.index.
  pose proof (split_length sep s) as L.
  destruct (nth_error (Py.split sep s) 2) as [seg|] eqn:E.
  - split; [discriminate|]. intros H.
    assert (N : nth_error (Py.split sep s) 2 <> None) by congruence.
    apply nth_error_Some in N. lia.
  - split; [|reflexivity]. intros _.
    apply nth_error_None in E. lia.
Qed.

Lemma funding_output_str_error ch e :
  funding_output_str ch = Raise e <->
  e = IndexError /\ funding_output ch = None /\
  (occurrences "x" (short_channel_id ch) < 2)%nat.
Proof.
  unfold funding_output_str.
  destruct (funding_output ch) as [n|].
  - split; [discriminate | intros (_ & H & _); discriminate].
  - split.
    + intros H.
      assert (E : e = IndexError).
      { unfold Py.index in H. destruct (nth_error _ 2); congruence. }
      subst e. repeat split. apply index_split_error. exact H.
    + intros (-> & _ & H). apply index_split_error. exact H.
Qed.

(** True division by a positive constant raises nothing but
    [OverflowError], and its result is a number [int] accepts. *)
Lemma truediv_outcome a (b : positive) :
  Zpos (digits2_pos b) <= 1000 ->
  Py.truediv a (Zpos b) = Raise OverflowError \/
  exists q n, Py.truediv a (Zpos b) = Ok q /\ Py.int q = Ok n /\
              q <> S754_nan /\ (forall s, q <> S754_infinity s).
Proof.
  intros Hb. destruct a as [|a|a].
  - right. exists (S754_zero false), 0. repeat split; discriminate.
  - rewrite truediv_pos_normal by exact Hb.
    destruct (normal_cases false _ (qdrop a b - qshift a b) (qmant_bounds a b))
      as (m' & e' & _ & ->).
    destruct (e' <=? 971); [right | left; reflexivity].
    eexists. eexists. repeat split; discriminate.
  - rewrite truediv_neg_normal by exact Hb.
    destruct (normal_cases true _ (qdrop a b - qshift a b) (qmant_bounds a b))
      as (m' & e' & _ & ->).
    destruct (e' <=? 971); [right | left; reflexivity].
    eexists. eexists. repeat split; discriminate.
Qed.

Lemma sat_str_outcome t :
  sat_str t = Raise OverflowError \/ exists s, sat_str t = Ok s.
Proof.
  unfold sat_str.
  destruct (truediv_outcome t 1000 small_1000) as [-> | (q & n & -> & Hn & _)].
  - left. reflexivity.
  - right. cbn [bind]. rewrite Hn. eexists. reflexivity.
Qed.

Lemma entry_outcome ch d :
  (exists e, entry ch d = Ok e) \/
  entry ch d = Raise OverflowError \/
  entry ch d = Raise IndexError /\ funding_output ch = None /\
  (occurrences "x" (short_channel_id ch) < 2)%nat.
Proof.
  unfold entry.
  destruct (funding_output_str ch) as [out|x] eqn:E.
  - cbn [bind].
    destruct (truediv_outcome (fee_per_millionth d) 1000000 small_1000000)
      as [-> | (q & n & -> & _)].
    + right. left. reflexivity.
    + left. eexists. reflexivity.
  - right. right. apply funding_output_str_error in E.
    destruct E as (-> & H1 & H2). auto.
Qed.

End Exceptions.

Section RaisedByTheLoop.

Variable rpc : LightningRpc.
Variable our_nodeid : string.

Lemma scan_Raise ch ds e :
  scan our_nodeid ch ds = Raise e ->
  exists d, In d ds /\ source d = our_nodeid /\ entry ch d = Raise e.
Proof.
  intros H.
  destruct (scan_cases our_nodeid ds) as [F | (pre & d & post & -> & Hpre & Hd)].
  - rewrite scan_foreign in H by exact F. discriminate.
  - rewrite scan_first in H by assumption.
    exists d. split; [apply in_or_app; right; left; reflexivity|].
    split; [exact Hd|].
    destruct (entry ch d); simpl in H; congruence.
Qed.

Lemma collect_Raise chs e :
  collect rpc our_nodeid chs [] = Raise e ->
  exists ch d,
    In ch chs /\ In d (listchannels rpc (short_channel_id ch)) /\
    source d = our_nodeid /\ entry ch d = Raise e.
Proof.
  induction chs as [|ch chs IH]; [discriminate|].
  rewrite collect_cons. intros H.
  apply bind_Raise in H. destruct H as [H | (found & _ & H)].
  - apply scan_Raise in H. destruct H as (d & Hd & Hs & He).
    exists ch, d. repeat split; try assumption. left. reflexivity.
  - apply bind_Raise in H. destruct H as [H | (l & _ & H)]; [|discriminate].
    destruct (IH H) as (ch' & d & Hch & Hd & Hs & He).
    exists ch', d. repeat split; try assumption. right. exact Hch.
Qed.

End RaisedByTheLoop.

(** X1: a funded channel that has an entry of ours in its listing, no
    [funding_output] field and a short channel id with fewer than two
    ["x"] makes the whole call raise [IndexError], once the channels
    before it have been processed: no report is returned, whatever the
    channels after it and the forwards. *)
Theorem short_channel_id_index_error
  (rpc : LightningRpc) (our_nodeid : string) (tz : Py.zone) (now : Py.datetime)
  (before after : list channel) (ch : channel)
  (pre post : list detail) (d : detail) (fees : list fee_entry) :
  listfunds rpc = before ++ ch :: after ->
  collect rpc our_nodeid before [] = Ok fees ->
  listchannels rpc (short_channel_id ch) = pre ++ d :: post ->
  Forall (fun d' => source d' <> our_nodeid) pre ->
  source d = our_nodeid ->
  funding_output ch = None ->
  (occurrences "x" (short_channel_id ch) < 2)%nat ->
  feereport rpc our_nodeid tz now = Raise IndexError.
Proof.
  intros Hfunds Hbefore Hlist Hpre Hd Hnone Hocc.
  assert (He : entry ch d = Raise IndexError).
  { unfold entry.
    replace (funding_output_str ch) with (@Raise string IndexError);
      [reflexivity|].
    symmetry. apply funding_output_str_error. auto. }
  unfold feereport. rewrite Hfunds, collect_app, Hbefore. cbn [bind].
  rewrite collect_cons, Hlist, scan_first by assumption.
  rewrite He. reflexivity.
Qed.

Lemma short_channel_id_index_error_witness :
  (occurrences "x" "700000x1" < 2)%nat /\
  feereport
    {| listfunds :=
         [example_channel;
          {| short_channel_id := "700000x1"; funding_txid := "ef01";
             funding_output := None |};
          example_channel];
       listchannels := fun _ => [example_detail "03bb"; example_detail "02aa"];
       listforwards := [] |} "02aa" Py.utc 0
  = Raise IndexError.
Proof.
  assert (H : (occurrences "x" "700000x1" < 2)%nat) by (simpl; lia).
  split; [exact H|].
  apply (short_channel_id_index_error _ "02aa" Py.utc 0
           [example_channel]
           [example_channel]
           {| short_channel_id := "700000x1"; funding_txid := "ef01";
              funding_output := None |}
           [example_detail "03bb"] [] (example_detail "02aa")
           [example_entry]).
  - reflexivity.
  - vm_compute. reflexivity.
  - reflexivity.
  - repeat constructor. discriminate.
  - reflexivity.
  - reflexivity.
  - exact H.
Defined.

(** X2: on answers of the expected shape the call raises nothing but
    [OverflowError] and [IndexError], and [IndexError] only when some
    funded channel with an entry of ours in its listing has no
    [funding_output] field and fewer than two ["x"] in its short
    channel id. *)
Theorem feereport_exceptions
  (rpc : LightningRpc) (our_nodeid : string)
  (tz : Py.zone) (now : Py.datetime) (e : exn) :
  feereport rpc our_nodeid tz now = Raise e ->
  e = OverflowError \/
  e = IndexError /\
  exists ch d,
    In ch (listfunds rpc) /\
    In d (listchannels rpc (short_channel_id ch)) /\
    source d = our_nodeid /\
    funding_output ch = None /\
    (occurrences "x" (short_channel_id ch) < 2)%nat.
Proof.
  unfold feereport. intros H.
  apply bind_Raise in H. destruct H as [H | (fees & _ & H)].
  - apply collect_Raise in H. destruct H as (ch & d & Hch & Hd & Hs & He).
    destruct (entry_outcome ch d) as [(x & Hx) | [Hx | (Hx & Hn & Ho)]];
      rewrite Hx in He; try discriminate; injection He as <-.
    + left. reflexivity.
    + right. split; [reflexivity|]. exists ch, d. auto.
  - left.
    assert (S : forall t (k : string -> result report) x,
               (forall s, k s = Raise x -> x = OverflowError) ->
               (s <- sat_str t ;; k s) = Raise x -> x = OverflowError).
    { intros t k x Hk Hb.
      destruct (sat_str_outcome t) as [E | (s & E)]; rewrite E in Hb.
      - simpl in Hb. congruence.
      - exact (Hk s Hb). }
    revert H. apply S. intros day. apply S. intros week. apply S.
    intros month. discriminate.
Qed.

Lemma feereport_exceptions_witness :
  feereport
    {| listfunds :=
         [ {| short_channel_id := "700000x1"; funding_txid := "ef01";
              funding_output := None |} ];
       listchannels := fun _ => [example_detail "02aa"];
       listforwards := [] |} "02aa" Py.utc 0
  = Raise IndexError /\
  (IndexError = OverflowError \/
   IndexError = IndexError /\
   exists ch d,
     In ch [ {| short_channel_id := "700000x1"; funding_txid := "ef01";
                funding_output := None |} ] /\
     In d [example_detail "02aa"] /\
     source d = "02aa"%string /\
     funding_output ch = None /\
     (occurrences "x" (short_channel_id ch) < 2)%nat).
Proof.
  assert (H : feereport
    {| listfunds :=
         [ {| short_channel_id := "700000x1"; funding_txid := "ef01";
              funding_output := None |} ];
       listchannels := fun _ => [example_detail "02aa"];
       listforwards := [] |} "02aa" Py.utc 0
    = Raise IndexError) by (vm_compute; reflexivity).
  split; [exact H|].
  exact (feereport_exceptions _ _ _ _ _ H).
Defined.

(** ** The windows *)

Section Windows.

Lemma fee_data_cons f l : fee_data (f :: l) = fee_data [f] ++ fee_data l.
Proof. exact (fee_data_app [f] l). Qed.

Lemma fee_data_unqualified l :
  Forall (fun f => qualifies f = false) l -> fee_data l = [].
Proof.
  induction 1 as [|f l Hf _ IH]; [reflexivity|].
  rewrite fee_data_cons, fee_data_skip, IH by exact Hf. reflexivity.
Qed.

Lemma unqualified_iff f :
  qualifies f = false <->
  status f <> "settled"%string \/ resolved_time f = None.
Proof.
  unfold qualifies. split.
  - intros H. apply andb_false_iff in H. destruct H as [H | H].
    + left. apply String.eqb_neq. exact H.
    + right. destruct (resolved_time f); [discriminate | reflexivity].
  - intros [H | ->].
    + apply String.eqb_neq in H. rewrite H. reflexivity.
    + apply andb_false_r.
Qed.

(** The list of forwards is all the loop over the channels ignores. *)
Lemma collect_listing rpc rpc' our_nodeid chs : forall acc,
  (forall scid, listchannels rpc scid = listchannels rpc' scid) ->
  collect rpc our_nodeid chs acc = collect rpc' our_nodeid chs acc.
Proof.
  induction chs as [|ch chs IH]; intros acc H; [reflexivity|].
  cbn [collect]. rewrite H.
  destruct (scan our_nodeid ch _); cbn [bind]; [apply IH; exact H | reflexivity].
Qed.

Lemma gt_le x c c' :
  Py.gt x c = true -> (c' <= c)%Q -> Py.gt x c' = true.
Proof.
  rewrite !gt_spec. intros H1 H2. exact (Qle_lt_trans _ _ _ H2 H1).
Qed.

Lemma fees_after_ext cs cs' data :
  (forall x, after_all cs x = after_all cs' x) ->
  fees_after cs data = fees_after cs' data.
Proof.
  intros H. induction data as [|x data IH]; [reflexivity|].
  rewrite !fees_after_cons, H, IH. reflexivity.
Qed.

Lemma fees_after_app cs l1 l2 :
  fees_after cs (l1 ++ l2) = fees_after cs l1 + fees_after cs l2.
Proof.
  induction l1 as [|x l1 IH]; [reflexivity|].
  rewrite <- app_comm_cons, !fees_after_cons, IH. lia.
Qed.

Lemma fees_after_perm cs l l' :
  Permutation l l' -> fees_after cs l = fees_after cs l'.
Proof.
  induction 1 as [|x l l' _ IH|x y l|l l' l'' _ IH1 _ IH2].
  - reflexivity.
  - rewrite !fees_after_cons, IH. reflexivity.
  - rewrite !fees_after_cons. lia.
  - congruence.
Qed.

Lemma fee_data_perm l l' :
  Permutation l l' -> Permutation (fee_data l) (fee_data l').
Proof.
  induction 1 as [|x l l' _ IH|x y l|l l' l'' _ IH1 _ IH2].
  - constructor.
  - rewrite (fee_data_cons x l), (fee_data_cons x l').
    apply Permutation_app_head. exact IH.
  - rewrite (fee_data_cons y (x :: l)), (fee_data_cons x l).
    rewrite (fee_data_cons x (y :: l)), (fee_data_cons y l).
    rewrite !app_assoc. apply Permutation_app_tail, Permutation_app_comm.
  - exact (Permutation_trans IH1 IH2).
Qed.

Lemma fees_in_cons lo hi x data :
  fees_in lo hi (x :: data) =
  (if in_window lo hi x then fst x else 0) + fees_in lo hi data.
Proof.
  unfold fees_in. simpl. destruct (in_window lo hi x); reflexivity.
Qed.

(** Between two ordered cutoffs lie the events after the first that are
    not after the second. *)
Lemma fees_after_diff lo hi data :
  (lo <= hi)%Q ->
  fees_after [lo] data - fees_after [hi] data = fees_in lo hi data.
Proof.
  intros Hord. induction data as [|x data IH]; [reflexivity|].
  rewrite !fees_after_cons, fees_in_cons, <- IH.
  unfold after_all, in_window. simpl. rewrite !andb_true_r.
  destruct (Py.gt (snd x) hi) eqn:Hhi.
  - rewrite (gt_le _ _ _ Hhi Hord). simpl. lia.
  - destruct (Py.gt (snd x) lo); simpl; lia.
Qed.

Lemma fee_sums_spec rpc tz now :
  fee_sums rpc tz now =
  {| day_sum := fees_after [month_ago tz now; week_ago tz now; day_ago tz now]
                  (fee_data (listforwards rpc));
     week_sum := fees_after [month_ago tz now; week_ago tz now]
                   (fee_data (listforwards rpc));
     month_sum := fees_after [month_ago tz now]
                    (fee_data (listforwards rpc)) |}.
Proof. unfold fee_sums. rewrite fold_tally. reflexivity. Qed.

End Windows.

(** X3: when no forward is both settled and time-stamped, as with the
    nodes older than v0.7.1 that the comment of [init] speaks of, the
    three sums are ["0"]: the call returns the records of the channels
    with ["0"], ["0"], ["0"], or raises what the loop over the channels
    raises. *)
Theorem sums_zero_without_resolved_time
  (rpc : LightningRpc) (our_nodeid : string)
  (tz : Py.zone) (now : Py.datetime) :
  Forall (fun f => status f <> "settled"%string \/ resolved_time f = None)
    (listforwards rpc) ->
  feereport rpc our_nodeid tz now =
  (fees <- collect rpc our_nodeid (listfunds rpc) [] ;;
   Ok {| channel_fees := fees; day_fee_sum := "0"; week_fee_sum := "0";
         month_fee_sum := "0" |}).
Proof.
  intros H.
  assert (Hd : fee_data (listforwards rpc) = []).
  { apply fee_data_unqualified. eapply Forall_impl; [|exact H].
    intros f Hf. apply unqualified_iff. exact Hf. }
  unfold feereport, fee_sums. rewrite Hd. reflexivity.
Qed.

Lemma sums_zero_without_resolved_time_witness :
  Forall (fun f => status f <> "settled"%string \/ resolved_time f = None)
    [ {| fee := 1999; status := "settled"; resolved_time := None |};
      {| fee := 500; status := "failed";
         resolved_time := Some (1700000000 # 1) |} ] /\
  feereport
    {| listfunds := [example_channel];
       listchannels := fun _ => [example_detail "02aa"];
       listforwards :=
         [ {| fee := 1999; status := "settled"; resolved_time := None |};
           {| fee := 500; status := "failed";
              resolved_time := Some (1700000000 # 1) |} ] |}
    "02aa" Py.utc 1700003600000000
  = Ok {| channel_fees := [example_entry]; day_fee_sum := "0";
          week_fee_sum := "0"; month_fee_sum := "0" |}.
Proof.
  assert (H : Forall
    (fun f => status f <> "settled"%string \/ resolved_time f = None)
    [ {| fee := 1999; status := "settled"; resolved_time := None |};
      {| fee := 500; status := "failed";
         resolved_time := Some (1700000000 # 1) |} ]).
  { constructor; [right; reflexivity|].
    constructor; [left; discriminate | constructor]. }
  split; [exact H|].
  rewrite (sums_zero_without_resolved_time
             {| listfunds := [example_channel];
                listchannels := fun _ => [example_detail "02aa"];
                listforwards :=
                  [ {| fee := 1999; status := "settled"; resolved_time := None |};
                    {| fee := 500; status := "failed";
                       resolved_time := Some (1700000000 # 1) |} ] |}
             "02aa" Py.utc 1700003600000000 H).
  vm_compute. reflexivity.
Defined.

(** X4: the cutoffs being ordered, the nested tests amount to one test
    per window: each sum is the sum of the fees of the settled,
    time-stamped events resolved strictly after its own cutoff, and the
    difference of two sums is the sum of the fees of the events between
    the two cutoffs. *)
Theorem window_sums_independent (rpc : LightningRpc)
  (tz : Py.zone) (now : Py.datetime) :
  day_sum (fee_sums rpc tz now)
  = fees_after [day_ago tz now] (fee_data (listforwards rpc)) /\
  week_sum (fee_sums rpc tz now)
  = fees_after [week_ago tz now] (fee_data (listforwards rpc)) /\
  month_sum (fee_sums rpc tz now)
  = fees_after [month_ago tz now] (fee_data (listforwards rpc)) /\
  week_sum (fee_sums rpc tz now) - day_sum (fee_sums rpc tz now)
  = fees_in (week_ago tz now) (day_ago tz now) (fee_data (listforwards rpc)) /\
  month_sum (fee_sums rpc tz now) - week_sum (fee_sums rpc tz now)
  = fees_in (month_ago tz now) (week_ago tz now) (fee_data (listforwards rpc)).
Proof.
  destruct (cutoffs_ordered tz now) as [Hdw Hwm].
  rewrite fee_sums_spec. cbn [day_sum week_sum month_sum].
  assert (Ed : fees_after [month_ago tz now; week_ago tz now; day_ago tz now]
                 (fee_data (listforwards rpc))
               = fees_after [day_ago tz now] (fee_data (listforwards rpc))).
  { apply fees_after_ext. intros x. unfold after_all. simpl.
    rewrite !andb_true_r.
    destruct (Py.gt (snd x) (day_ago tz now)) eqn:E.
    - pose proof (gt_le _ _ _ E Hdw) as Ew.
      rewrite Ew, (gt_le _ _ _ Ew Hwm). reflexivity.
    - rewrite !andb_false_r. reflexivity. }
  assert (Ew : fees_after [month_ago tz now; week_ago tz now]
                 (fee_data (listforwards rpc))
               = fees_after [week_ago tz now] (fee_data (listforwards rpc))).
  { apply fees_after_ext. intros x. unfold after_all. simpl.
    rewrite !andb_true_r.
    destruct (Py.gt (snd x) (week_ago tz now)) eqn:E.
    - rewrite (gt_le _ _ _ E Hwm). reflexivity.
    - rewrite andb_false_r. reflexivity. }
  rewrite Ed, Ew. repeat split; try reflexivity;
    apply fees_after_diff; assumption.
Qed.

(** X5: the order in which [listforwards] gives the events does not
    matter: two lists that are permutations of each other give the same
    report. *)
Theorem forwards_order_irrelevant
  (our_nodeid : string) (chs : list channel) (lc : string -> list detail)
  (fw fw' : list forward) (tz : Py.zone) (now : Py.datetime) :
  Permutation fw fw' ->
  feereport {| listfunds := chs; listchannels := lc; listforwards := fw |}
            our_nodeid tz now
  = feereport {| listfunds := chs; listchannels := lc; listforwards := fw' |}
              our_nodeid tz now.
Proof.
  intros P.
  assert (Hs : fee_sums {| listfunds := chs; listchannels := lc;
                            listforwards := fw |} tz now
               = fee_sums {| listfunds := chs; listchannels := lc;
                              listforwards := fw' |} tz now).
  { rewrite !fee_sums_spec. cbn [listforwards].
    pose proof (fee_data_perm _ _ P) as PD.
    f_equal; apply fees_after_perm; exact PD. }
  unfold feereport. rewrite Hs. cbn [listfunds].
  rewrite (collect_listing _ {| listfunds := chs; listchannels := lc;
                                listforwards := fw' |} our_nodeid chs []);
    reflexivity.
Qed.

Lemma forwards_order_irrelevant_witness :
  Permutation
    [settled_at 1999 (1700000000 # 1); settled_at 7000 (1699000000 # 1)]
    [settled_at 7000 (1699000000 # 1); settled_at 1999 (1700000000 # 1)] /\
  feereport {| listfunds := []; listchannels := fun _ => [];
               listforwards :=
                 [settled_at 1999 (1700000000 # 1);
                  settled_at 7000 (1699000000 # 1)] |}
            "02aa" Py.utc 1700003600000000
  = Ok {| channel_fees := []; day_fee_sum := "1"; week_fee_sum := "1";
          month_fee_sum := "8" |}.
Proof.
  assert (P : Permutation
    [settled_at 1999 (1700000000 # 1); settled_at 7000 (1699000000 # 1)]
    [settled_at 7000 (1699000000 # 1); settled_at 1999 (1700000000 # 1)])
    by apply perm_swap.
  split; [exact P|].
  rewrite (forwards_order_irrelevant "02aa" [] (fun _ => []) _ _
             Py.utc 1700003600000000 P).
  vm_compute. reflexivity.
Defined.

(** X6: the millisatoshi sums of a list of forwards made of two parts
    are the sums of the two parts, added; the conversion to satoshi is
    made once, on the totals. *)
Theorem fee_sums_additive
  (chs : list channel) (lc : string -> list detail)
  (fw1 fw2 : list forward) (tz : Py.zone) (now : Py.datetime) :
  fee_sums {| listfunds := chs; listchannels := lc;
              listforwards := fw1 ++ fw2 |} tz now
  = add_sums
      (fee_sums {| listfunds := chs; listchannels := lc;
                   listforwards := fw1 |} tz now)
      (fee_sums {| listfunds := chs; listchannels := lc;
                   listforwards := fw2 |} tz now).
Proof.
  rewrite !fee_sums_spec. cbn [listforwards]. unfold add_sums.
  cbn [day_sum week_sum month_sum].
  rewrite fee_data_app, !fees_after_app. reflexivity.
Qed.

(** ** The conversion to satoshi *)

Section Satoshi.

Lemma sat_str_neg a s :
  sat_str (Zneg a) = Ok s -> s = Py.str (- quot_int a 1000).
Proof.
  unfold sat_str. rewrite truediv_neg_normal by exact small_1000.
  destruct (int_normal a 1000 true _ eq_refl) as [E | E].
  - rewrite E. discriminate.
  - destruct (normal true (qmant a 1000) (qdrop a 1000 - qshift a 1000));
      cbn [bind]; try discriminate; rewrite E; cbn [bind]; congruence.
Qed.

(** Below [2^44] satoshi in absolute value the conversion is the
    division of integers that truncates towards zero. *)
Lemma sat_str_quot t :
  Z.abs t < 2 ^ 44 * 1000 -> sat_str t = Ok (Py.str (Z.quot t 1000)).
Proof.
  intros Ht. destruct t as [|a|a].
  - reflexivity.
  - rewrite Z.quot_div_nonneg by lia. apply sat_str_exact. lia.
  - destruct (sat_str_fits (Zneg a)) as [s Hs].
    { assert (2 ^ 44 * 1000 < 2 ^ 1000) by reflexivity. lia. }
    rewrite Hs. apply sat_str_neg in Hs. subst s.
    rewrite quot_int_exact by lia.
    change (Z.neg a) with (- Zpos a).
    rewrite Z.quot_opp_l, Z.quot_div_nonneg by lia. reflexivity.
Qed.

(** A total of [2^1034] millisatoshi or more is too large for a float. *)
Lemma sat_str_overflow t :
  2 ^ 1034 <= t -> sat_str t = Raise OverflowError.
Proof.
  intros Ht.
  assert (P : 0 < 2 ^ 1034) by reflexivity.
  destruct t as [|a|a]; try lia.
  unfold sat_str. rewrite truediv_pos_normal by exact small_1000.
  destruct (qdrop_bounds a 1000) as [Hk [_ Hhi]].
  pose proof (qshift_nonneg a 1000) as Hs.
  pose proof (pow2_pos (qdrop a 1000) Hk) as Hpk.
  pose proof (pow2_pos (qshift a 1000) Hs) as Hps.
  assert (He : 971 < qdrop a 1000 - qshift a 1000).
  { assert (H : 2 ^ (1034 + qshift a 1000) < 2 ^ (63 + qdrop a 1000)).
    { rewrite !Z.pow_add_r by lia.
      assert (E : 2 ^ 63 = 2 ^ 53 * 1024) by reflexivity.
      assert (0 < 2 ^ 53) by reflexivity. nia. }
    apply pow2_le_inv in H; lia. }
  destruct (normal_cases false _ (qdrop a 1000 - qshift a 1000)
              (qmant_bounds a 1000)) as (m' & e' & Hme & ->).
  replace (e' <=? 971) with false; [reflexivity|].
  symmetry. apply Z.leb_gt. destruct Hme as [[-> _] | [-> _]]; lia.
Qed.

Lemma fees_after_nonneg cs data :
  Forall (fun x => 0 <= fst x) data -> 0 <= fees_after cs data.
Proof.
  induction 1 as [|x data Hx _ IH]; [unfold fees_after; simpl; lia|].
  rewrite fees_after_cons. destruct (after_all cs x); lia.
Qed.

(** With fees that are not negative, no sum exceeds the total of the
    fees. *)
Lemma fees_after_total cs l :
  Forall (fun f => 0 <= fee f) l ->
  fees_after cs (fee_data l) <= total_fees l.
Proof.
  induction 1 as [|f l Hf Hl IH];
    [unfold fees_after, total_fees; simpl; lia|].
  unfold total_fees in *. cbn [map fold_right].
  rewrite fee_data_cons, fees_after_app.
  assert (H1 : fees_after cs (fee_data [f]) <= fee f).
  { simpl. destruct (String.eqb (status f) "settled");
      [destruct (resolved_time f)|]; try (unfold fees_after; simpl; lia).
    rewrite fees_after_cons.
    change (fees_after cs []) with 0.
    destruct (after_all cs (fee f, q)); simpl; lia. }
  lia.
Qed.

End Satoshi.

(** X7: below [2^44] satoshi the sums are converted exactly.  A total
    of less than [2^44 * 1000] millisatoshi in absolute value gives the
    decimal writing of the total divided by 1000 and truncated towards
    zero; so when no fee is negative and all the fees of [listforwards]
    add up to less than that, the three strings of the report are the
    integer quotients of the three sums by 1000, and the call returns
    whenever the loop over the channels does. *)
Theorem satoshi_sums_exact
  (rpc : LightningRpc) (our_nodeid : string)
  (tz : Py.zone) (now : Py.datetime) :
  (forall t, Z.abs t < 2 ^ 44 * 1000 ->
             sat_str t = Ok (Py.str (Z.quot t 1000))) /\
  (Forall (fun f => 0 <= fee f) (listforwards rpc) ->
   total_fees (listforwards rpc) < 2 ^ 44 * 1000 ->
   feereport rpc our_nodeid tz now =
   (fees <- collect rpc our_nodeid (listfunds rpc) [] ;;
    Ok {| channel_fees := fees;
          day_fee_sum := Py.str (day_sum (fee_sums rpc tz now) / 1000);
          week_fee_sum := Py.str (week_sum (fee_sums rpc tz now) / 1000);
          month_fee_sum := Py.str (month_sum (fee_sums rpc tz now) / 1000) |})).
Proof.
  split; [exact sat_str_quot|].
  intros Hfee Htotal.
  assert (Hdata : Forall (fun x => 0 <= fst x) (fee_data (listforwards rpc))).
  { apply Forall_forall. intros x Hx.
    destruct (fee_data_fee _ _ Hx) as (f & Hf & <-).
    rewrite Forall_forall in Hfee. exact (Hfee f Hf). }
  pose proof (fees_after_nonneg
                [month_ago tz now; week_ago tz now; day_ago tz now]
                _ Hdata) as Hd0.
  pose proof (fees_after_nonneg [month_ago tz now; week_ago tz now] _ Hdata)
    as Hw0.
  pose proof (fees_after_nonneg [month_ago tz now] _ Hdata) as Hm0.
  pose proof (fees_after_total
                [month_ago tz now; week_ago tz now; day_ago tz now]
                _ Hfee) as Hd1.
  pose proof (fees_after_total [month_ago tz now; week_ago tz now] _ Hfee)
    as Hw1.
  pose proof (fees_after_total [month_ago tz now] _ Hfee) as Hm1.
  unfold feereport. cbv zeta. rewrite fee_sums_spec.
  cbn [day_sum week_sum month_sum].
  rewrite !sat_str_exact by lia. reflexivity.
Qed.

Lemma satoshi_sums_exact_witness :
  Z.abs (-1999) < 2 ^ 44 * 1000 /\
  sat_str (-1999) = Ok "-1"%string /\
  Forall (fun f => 0 <= fee f)
    [settled_at 999 (1700000000 # 1); settled_at 1500 (1700000000 # 1)] /\
  total_fees
    [settled_at 999 (1700000000 # 1); settled_at 1500 (1700000000 # 1)]
  < 2 ^ 44 * 1000 /\
  feereport {| listfunds := []; listchannels := fun _ => [];
               listforwards :=
                 [settled_at 999 (1700000000 # 1);
                  settled_at 1500 (1700000000 # 1)] |}
            "02aa" Py.utc 1700003600000000
  = Ok {| channel_fees := []; day_fee_sum := "2"; week_fee_sum := "2";
          month_fee_sum := "2" |}.
Proof.
  destruct (satoshi_sums_exact
              {| listfunds := []; listchannels := fun _ => [];
                 listforwards :=
                   [settled_at 999 (1700000000 # 1);
                    settled_at 1500 (1700000000 # 1)] |}
              "02aa" Py.utc 1700003600000000) as [S F].
  assert (H1 : Z.abs (-1999) < 2 ^ 44 * 1000) by reflexivity.
  assert (H2 : Forall (fun f => 0 <= fee f)
    [settled_at 999 (1700000000 # 1); settled_at 1500 (1700000000 # 1)]).
  { repeat constructor; simpl; lia. }
  assert (H3 : total_fees
    [settled_at 999 (1700000000 # 1); settled_at 1500 (1700000000 # 1)]
    < 2 ^ 44 * 1000) by reflexivity.
  split; [exact H1|]. split; [exact (S _ H1)|].
  split; [exact H2|]. split; [exact H3|].
  rewrite (F H2 H3). vm_compute. reflexivity.
Defined.

(** X8: a sum too large for a float is not printed: a total of [2^1034]
    millisatoshi or more raises [OverflowError] in the conversion, and
    so does the call when the loop over the channels has returned and
    the month sum is that large. *)
Theorem satoshi_sum_overflow
  (rpc : LightningRpc) (our_nodeid : string)
  (tz : Py.zone) (now : Py.datetime) :
  (forall t, 2 ^ 1034 <= t -> sat_str t = Raise OverflowError) /\
  (forall fees,
     collect rpc our_nodeid (listfunds rpc) [] = Ok fees ->
     2 ^ 1034 <= month_sum (fee_sums rpc tz now) ->
     feereport rpc our_nodeid tz now = Raise OverflowError).
Proof.
  split; [exact sat_str_overflow|].
  intros fees Hc Hm. unfold feereport. rewrite Hc. cbn [bind]. cbv zeta.
  destruct (sat_str_outcome (day_sum (fee_sums rpc tz now))) as [-> | (d & ->)];
    [reflexivity|]. cbn [bind].
  destruct (sat_str_outcome (week_sum (fee_sums rpc tz now)))
    as [-> | (w & ->)];
    [reflexivity|]. cbn [bind].
  rewrite sat_str_overflow by exact Hm. reflexivity.
Qed.

Lemma satoshi_sum_overflow_witness :
  2 ^ 1034 <= 2 ^ 1034 /\
  sat_str (2 ^ 1034) = Raise OverflowError /\
  feereport {| listfunds := []; listchannels := fun _ => [];
               listforwards :=
                 [settled_at (2 ^ 1034) (1699000000 # 1)] |}
            "02aa" Py.utc 1700003600000000
  = Raise OverflowError.
Proof.
  destruct (satoshi_sum_overflow
              {| listfunds := []; listchannels := fun _ => [];
                 listforwards :=
                   [settled_at (2 ^ 1034) (1699000000 # 1)] |}
              "02aa" Py.utc 1700003600000000) as [S F].
  assert (H : 2 ^ 1034 <= 2 ^ 1034) by apply Z.le_refl.
  split; [exact H|]. split; [exact (S _ H)|].
  apply (F []); [reflexivity|].
  vm_compute. discriminate.
Defined.

(** ** The fields of a record *)

Section Fields.

Lemma truediv_million_sign a q :
  Py.truediv a 1000000 = Ok q ->
  a = 0 /\ q = S754_zero false \/
  a <> 0 /\ exists m e, q = S754_finite (a <? 0) m e.
Proof.
  destruct a as [|a|a].
  - intros [= <-]. left. auto.
  - rewrite truediv_pos_normal by exact small_1000000.
    destruct (normal_cases false _ (qdrop a 1000000 - qshift a 1000000)
                (qmant_bounds a 1000000)) as (m' & e' & _ & ->).
    destruct (e' <=? 971); [|discriminate].
    intros [= <-]. right. split; [discriminate|]. eauto.
  - rewrite truediv_neg_normal by exact small_1000000.
    destruct (normal_cases true _ (qdrop a 1000000 - qshift a 1000000)
                (qmant_bounds a 1000000)) as (m' & e' & _ & ->).
    destruct (e' <=? 971); [|discriminate].
    intros [= <-]. right. split; [discriminate|]. eauto.
Qed.

Lemma rne_div_nonneg n d : 0 <= n -> 0 < d -> 0 <= Py.rne_div n d.
Proof.
  intros Hn Hd. apply (rne_div_range n d 0 (n + 1)); [exact Hd | nia].
Qed.

(** A finite float is printed as a sign and a numeral with eight
    decimals. *)
Lemma format_f_finite s m e :
  exists n, 0 <= n /\
    Py.format_f 8 (S754_finite s m e) = (Py.sign s ++ Py.fixed 8 n)%string.
Proof.
  unfold Py.format_f. eexists. split; [|reflexivity].
  change (10 ^ Z.of_nat 8) with 100000000.
  destruct (0 <=? e) eqn:E.
  - apply Z.leb_le in E. pose proof (pow2_pos e E). nia.
  - apply Z.leb_gt in E. apply rne_div_nonneg; [lia|].
    apply pow2_pos. lia.
Qed.

Lemma lacks_app c s1 s2 :
  lacks c (s1 ++ s2) <-> lacks c s1 /\ lacks c s2.
Proof.
  induction s1 as [|c' s1 IH]; simpl; [tauto|]. rewrite IH. tauto.
Qed.

Lemma all_digits_lacks c s :
  ~ (48 <= nat_of_ascii c <= 57)%nat -> all_digits s -> lacks c s.
Proof.
  intros Hc. induction s as [|c' s IH]; simpl; [auto|].
  intros [H1 H2]. split; [|exact (IH H2)].
  intros ->. exact (Hc H1).
Qed.

(** The writing of an integer has no colon. *)
Lemma str_lacks_colon z : lacks ":" (Py.str z).
Proof.
  assert (Hc : ~ (48 <= nat_of_ascii ":" <= 57)%nat).
  { change (nat_of_ascii ":") with 58%nat. lia. }
  destruct z as [|p|p].
  - apply all_digits_lacks; [exact Hc | apply (str_all_digits 0); lia].
  - apply all_digits_lacks; [exact Hc | apply str_all_digits; lia].
  - pose proof (str_all_digits (Zpos p) ltac:(lia)) as H.
    unfold Py.str in *. cbn [Z.to_int NilZero.string_of_int] in *.
    split; [discriminate|]. apply all_digits_lacks; assumption.
Qed.

Lemma third_segment_lacks c sep s seg :
  third_segment sep s seg -> lacks c s -> lacks c seg.
Proof.
  intros (s0 & s1 & rest & _ & _ & _ & -> & _) H.
  apply lacks_app in H. destruct H as [_ H]. cbn [lacks] in H.
  destruct H as [_ H]. apply lacks_app in H. destruct H as [_ H].
  cbn [lacks] in H. destruct H as [_ H].
  apply lacks_app in H. tauto.
Qed.

End Fields.

(** X9: the integer fields of a record can be read back: for every
    record of a returned report, [base_fee_msat] and [fee_per_mil] are
    decimal strings that read as the [base_fee_millisatoshi] and the
    [fee_per_millionth] of the entry of the listing the record was built
    from, whatever these integers are. *)
Theorem integer_fields_round_trip
  (rpc : LightningRpc) (our_nodeid : string) (tz : Py.zone) (now : Py.datetime)
  (r : report) (e : fee_entry) :
  feereport rpc our_nodeid tz now = Ok r -> In e (channel_fees r) ->
  exists ch d,
    In ch (listfunds rpc) /\
    In d (listchannels rpc (short_channel_id ch)) /\
    source d = our_nodeid /\ entry ch d = Ok e /\
    read_int (base_fee_msat e) = Some (base_fee_millisatoshi d) /\
    read_int (fee_per_mil e) = Some (fee_per_millionth d).
Proof.
  intros Hr Hin.
  destruct (emitted _ _ _ _ _ _ Hr Hin) as (ch & d & Hch & Hd & Hsrc & He).
  exists ch, d. repeat split; try assumption;
    destruct (entry_Ok _ _ _ He) as (out & rate & _ & _ & ->);
    apply read_int_str.
Qed.

Lemma integer_fields_round_trip_witness :
  exists r e,
    feereport {| listfunds := [example_channel];
                 listchannels := fun _ =>
                   [ {| source := "02aa"; base_fee_millisatoshi := -3;
                        fee_per_millionth := 4294967295 |} ];
                 listforwards := [] |} "02aa" Py.utc 0 = Ok r /\
    In e (channel_fees r) /\
    read_int (base_fee_msat e) = Some (-3) /\
    read_int (fee_per_mil e) = Some 4294967295.
Proof.
  eexists. eexists.
  assert (H1 : feereport
    {| listfunds := [example_channel];
       listchannels := fun _ =>
         [ {| source := "02aa"; base_fee_millisatoshi := -3;
              fee_per_millionth := 4294967295 |} ];
       listforwards := [] |} "02aa" Py.utc 0
    = Ok {| channel_fees :=
              [ {| chan_point := "abcd:0"; base_fee_msat := "-3";
                   fee_per_mil := "4294967295";
                   fee_rate := "4294.96729500" |} ];
            day_fee_sum := "0"; week_fee_sum := "0"; month_fee_sum := "0" |})
    by (vm_compute; reflexivity).
  split; [exact H1|].
  assert (H2 : In {| chan_point := "abcd:0"; base_fee_msat := "-3";
                     fee_per_mil := "4294967295";
                     fee_rate := "4294.96729500" |}
                 [ {| chan_point := "abcd:0"; base_fee_msat := "-3";
                      fee_per_mil := "4294967295";
                      fee_rate := "4294.96729500" |} ]) by (left; reflexivity).
  split; [exact H2|].
  destruct (integer_fields_round_trip _ _ _ _ _ _ H1 H2)
    as (ch & d & Hch & Hd & _ & _ & Hb & Hp).
  destruct Hd as [<- | []]. split; [exact Hb | exact Hp].
Defined.

(** X10: whatever the [fee_per_millionth], the [fee_rate] of a record
    of a returned report is a minus sign when the value is negative,
    then a non-empty run of digits, a point and exactly eight digits;
    it is never ["inf"] or ["nan"]. *)
Theorem fee_rate_shape
  (rpc : LightningRpc) (our_nodeid : string) (tz : Py.zone) (now : Py.datetime)
  (r : report) (e : fee_entry) :
  feereport rpc our_nodeid tz now = Ok r -> In e (channel_fees r) ->
  exists ch d ip fp,
    In ch (listfunds rpc) /\
    In d (listchannels rpc (short_channel_id ch)) /\
    source d = our_nodeid /\ entry ch d = Ok e /\
    fee_rate e
    = (Py.sign (Z.ltb (fee_per_millionth d) 0) ++ ip ++ String "." fp)%string /\
    ip <> EmptyString /\ all_digits ip /\
    String.length fp = 8%nat /\ all_digits fp.
Proof.
  intros Hr Hin.
  destruct (emitted _ _ _ _ _ _ Hr Hin) as (ch & d & Hch & Hd & Hsrc & He).
  destruct (entry_Ok _ _ _ He) as (out & rate & _ & Hrate & Ee).
  assert (F : exists n, 0 <= n /\
                Py.format_f 8 rate
                = (Py.sign (Z.ltb (fee_per_millionth d) 0) ++ Py.fixed 8 n)%string).
  { destruct (truediv_million_sign _ _ Hrate)
      as [[-> ->] | (_ & m & x & ->)].
    - exists 0. split; [lia | reflexivity].
    - apply format_f_finite. }
  destruct F as (n & Hn & Hf).
  destruct (fixed_read 8 n ltac:(lia) Hn)
    as (ip & fp & E & Hne & Hip & Hlen & Hfp & _).
  exists ch, d, ip, fp. repeat split; try assumption.
  rewrite Ee. cbn [fee_rate]. rewrite Hf, E. reflexivity.
Qed.

Lemma fee_rate_shape_witness :
  exists r e ip fp,
    feereport {| listfunds := [example_channel];
                 listchannels := fun _ =>
                   [ {| source := "02aa"; base_fee_millisatoshi := 0;
                        fee_per_millionth := -5 |} ];
                 listforwards := [] |} "02aa" Py.utc 0 = Ok r /\
    In e (channel_fees r) /\
    fee_rate e = (Py.sign (Z.ltb (-5) 0) ++ ip ++ String "." fp)%string /\
    String.length fp = 8%nat.
Proof.
  eexists. eexists.
  assert (H1 : feereport
    {| listfunds := [example_channel];
       listchannels := fun _ =>
         [ {| source := "02aa"; base_fee_millisatoshi := 0;
              fee_per_millionth := -5 |} ];
       listforwards := [] |} "02aa" Py.utc 0
    = Ok {| channel_fees :=
              [ {| chan_point := "abcd:0"; base_fee_msat := "0";
                   fee_per_mil := "-5";
                   fee_rate := "-0.00000500" |} ];
            day_fee_sum := "0"; week_fee_sum := "0"; month_fee_sum := "0" |})
    by (vm_compute; reflexivity).
  assert (H2 : In {| chan_point := "abcd:0"; base_fee_msat := "0";
                     fee_per_mil := "-5"; fee_rate := "-0.00000500" |}
                 [ {| chan_point := "abcd:0"; base_fee_msat := "0";
                      fee_per_mil := "-5"; fee_rate := "-0.00000500" |} ])
    by (left; reflexivity).
  destruct (fee_rate_shape _ _ _ _ _ _ H1 H2)
    as (ch & d & ip & fp & _ & Hd & _ & _ & E & _ & _ & Hlen & _).
  destruct Hd as [<- | []].
  exists ip, fp. split; [exact H1|]. split; [exact H2|].
  split; [exact E | exact Hlen].
Defined.

(** X12: [chan_point] can be taken apart again.  For every record of a
    returned report, built for a channel whose funding transaction id
    has no colon and which either carries [funding_output] or has no
    colon in its short channel id, splitting [chan_point] at the colons
    gives back exactly the funding transaction id and the output
    index. *)
Theorem chan_point_round_trip
  (rpc : LightningRpc) (our_nodeid : string) (tz : Py.zone) (now : Py.datetime)
  (r : report) (e : fee_entry) :
  feereport rpc our_nodeid tz now = Ok r -> In e (channel_fees r) ->
  exists ch d index,
    In ch (listfunds rpc) /\
    In d (listchannels rpc (short_channel_id ch)) /\
    source d = our_nodeid /\ entry ch d = Ok e /\
    funding_output_str ch = Ok index /\
    (lacks ":" (funding_txid ch) ->
     funding_output ch <> None \/ lacks ":" (short_channel_id ch) ->
     Py.split ":" (chan_point e) = [funding_txid ch; index]).
Proof.
  intros Hr Hin.
  destruct (emitted _ _ _ _ _ _ Hr Hin) as (ch & d & Hch & Hd & Hsrc & He).
  destruct (entry_Ok _ _ _ He) as (out & rate & Hout & _ & ->).
  exists ch, d, out. repeat split; try assumption.
  intros Htx Hidx. cbn [chan_point].
  assert (Hl : lacks ":" out).
  { pose proof (funding_output_str_Ok _ _ Hout) as H.
    destruct (funding_output ch) as [n|].
    - subst out. apply str_lacks_colon.
    - destruct Hidx as [Hidx | Hidx]; [congruence|].
      exact (third_segment_lacks _ _ _ _ H Hidx). }
  change (funding_txid ch ++ ":" ++ out)%string
    with (funding_txid ch ++ String ":" out)%string.
  rewrite split_lacks_app, split_lacks by assumption. reflexivity.
Qed.

Lemma chan_point_round_trip_witness :
  lacks ":" "abcd" /\
  (funding_output example_channel <> None \/ lacks ":" "700000x1x0") /\
  Py.split ":" (chan_point example_entry) = ["abcd"; "0"]%string.
Proof.
  assert (H1 : feereport {| listfunds := [example_channel];
                            listchannels := fun _ => [example_detail "02aa"];
                            listforwards := [] |} "02aa" Py.utc 0
               = Ok {| channel_fees := [example_entry]; day_fee_sum := "0";
                       week_fee_sum := "0"; month_fee_sum := "0" |})
    by (vm_compute; reflexivity).
  assert (H2 : In example_entry [example_entry]) by (left; reflexivity).
  assert (H3 : lacks ":" "abcd") by (repeat split; discriminate).
  assert (H4 : funding_output example_channel <> None \/
               lacks ":" "700000x1x0")
    by (right; repeat split; discriminate).
  split; [exact H3|]. split; [exact H4|].
  destruct (chan_point_round_trip _ _ _ _ _ _ H1 H2)
    as (ch & d & index & Hch & _ & _ & _ & Hout & Hsplit).
  destruct Hch as [<- | []].
  injection Hout as <-.
  exact (Hsplit H3 H4).
Defined.

(** X13: reports compose over the list of funded channels.  With the
    same listings and forwards, if the call returns for the channels
    [chs1] and for the channels [chs2], it returns for [chs1 ++ chs2],
    with the records of the first followed by those of the second and
    the same three sums. *)
Theorem channel_fees_compose
  (our_nodeid : string) (lc : string -> list detail) (fw : list forward)
  (chs1 chs2 : list channel)
  (tz : Py.zone) (now : Py.datetime) (r1 r2 : report) :
  feereport {| listfunds := chs1; listchannels := lc; listforwards := fw |}
            our_nodeid tz now = Ok r1 ->
  feereport {| listfunds := chs2; listchannels := lc; listforwards := fw |}
            our_nodeid tz now = Ok r2 ->
  feereport {| listfunds := chs1 ++ chs2; listchannels := lc;
               listforwards := fw |} our_nodeid tz now
  = Ok {| channel_fees := channel_fees r1 ++ channel_fees r2;
          day_fee_sum := day_fee_sum r1;
          week_fee_sum := week_fee_sum r1;
          month_fee_sum := month_fee_sum r1 |}.
Proof.
  intros H1 H2.
  apply feereport_Ok in H1. destruct H1 as (C1 & D1 & W1 & M1).
  apply feereport_Ok in H2. destruct H2 as (C2 & _).
  cbn [listfunds] in C1, C2.
  unfold feereport. cbn [listfunds].
  rewrite collect_app.
  rewrite (collect_listing _ {| listfunds := chs1; listchannels := lc;
                                listforwards := fw |} our_nodeid chs1 [])
    by reflexivity.
  rewrite (collect_listing _ {| listfunds := chs2; listchannels := lc;
                                listforwards := fw |} our_nodeid chs2 [])
    by reflexivity.
  rewrite C1, C2. cbn [bind]. cbv zeta.
  change (fee_sums {| listfunds := chs1 ++ chs2; listchannels := lc;
                      listforwards := fw |} tz now)
    with (fee_sums {| listfunds := chs1; listchannels := lc;
                      listforwards := fw |} tz now).
  rewrite D1, W1, M1. reflexivity.
Qed.

Lemma channel_fees_compose_witness :
  feereport {| listfunds := [example_channel];
               listchannels := fun _ => [example_detail "02aa"];
               listforwards := [] |} "02aa" Py.utc 0
  = Ok {| channel_fees := [example_entry]; day_fee_sum := "0";
          week_fee_sum := "0"; month_fee_sum := "0" |} /\
  feereport {| listfunds := [example_channel; example_channel];
               listchannels := fun _ => [example_detail "02aa"];
               listforwards := [] |} "02aa" Py.utc 0
  = Ok {| channel_fees := [example_entry; example_entry];
          day_fee_sum := "0"; week_fee_sum := "0"; month_fee_sum := "0" |}.
Proof.
  assert (H : feereport {| listfunds := [example_channel];
                           listchannels := fun _ => [example_detail "02aa"];
                           listforwards := [] |} "02aa" Py.utc 0
              = Ok {| channel_fees := [example_entry]; day_fee_sum := "0";
                      week_fee_sum := "0"; month_fee_sum := "0" |})
    by (vm_compute; reflexivity).
  split; [exact H|].
  exact (channel_fees_compose "02aa" (fun _ => [example_detail "02aa"]) []
           [example_channel] [example_channel] Py.utc 0 _ _ H H).
Defined.

(** ** The accuracy of the fee rate *)

Section RateAccuracy.

Variable a : positive.

(** The numeral printed for [a / 1000000] is [n / 10^8] with [n] within
    one half of [10^8] times the float, itself within one half of its
    last bit of the quotient. *)
Lemma format_rate_error q :
  Py.truediv (Zpos a) 1000000 = Ok q ->
  exists n, Py.format_f 8 q = Py.fixed 8 n /\ 0 <= n /\
            2 ^ 54 * Z.abs (n - 100 * Zpos a) <= 2 ^ 53 + 200 * Zpos a.
Proof.
  rewrite truediv_pos_normal by exact small_1000000.
  destruct (qdrop_bounds a 1000000) as [Hk [Hlo _]].
  pose proof (qshift_nonneg a 1000000) as Hs.
  pose proof (qmant_bounds a 1000000) as Hm.
  pose proof (rne_div_error (Zpos a * 2 ^ qshift a 1000000)
                (1000000 * 2 ^ qdrop a 1000000)) as Herr.
  fold (qmant a 1000000) in Herr.
  set (s := qshift a 1000000) in *. set (k := qdrop a 1000000) in *.
  set (m := qmant a 1000000) in *.
  pose proof (pow2_pos k Hk) as Hpk. pose proof (pow2_pos s Hs) as Hps.
  specialize (Herr ltac:(lia)).
  destruct (normal_cases false m (k - s) Hm) as (m' & e' & Hme & ->).
  destruct (e' <=? 971); [|discriminate]. intros [= <-].
  (* the printed integer, against the mantissa *)
  assert (Hn : exists n,
    Py.format_f 8 (S754_finite false m' e') = Py.fixed 8 n /\ 0 <= n /\
    2 * Z.abs (n * 2 ^ s - m * 2 ^ k * 100000000) <= 2 ^ s).
  { unfold Py.format_f. cbn [Py.sign append].
    change (10 ^ Z.of_nat 8) with 100000000.
    destruct (0 <=? e') eqn:E.
    - apply Z.leb_le in E. pose proof (pow2_pos e' E) as Hpe.
      eexists. split; [reflexivity|]. split; [nia|].
      assert (Ev : Zpos m' * 2 ^ e' * 2 ^ s = m * 2 ^ k).
      { destruct Hme as [[-> ->] | [-> <-]].
        - rewrite <- Z.mul_assoc, <- Z.pow_add_r by lia.
          do 2 f_equal. lia.
        - rewrite <- Z.mul_assoc, <- Z.pow_add_r by lia.
          replace (k - s + 1 + s) with (Z.succ k) by lia.
          rewrite Z.pow_succ_r by lia. ring. }
      replace (Z.pos m' * 2 ^ e' * 100000000 * 2 ^ s
               - m * 2 ^ k * 100000000)
        with ((Zpos m' * 2 ^ e' * 2 ^ s - m * 2 ^ k) * 100000000) by ring.
      rewrite Ev, Z.sub_diag. simpl. lia.
    - apply Z.leb_gt in E.
      pose proof (pow2_pos (- e') ltac:(lia)) as Hpd.
      pose proof (rne_div_error (Zpos m' * 100000000) (2 ^ (- e')) Hpd) as R.
      pose proof (rne_div_nonneg (Zpos m' * 100000000) (2 ^ (- e'))
                    ltac:(lia) Hpd) as N0.
      set (n := Py.rne_div (Zpos m' * 100000000) (2 ^ (- e'))) in *.
      exists n. split; [reflexivity|]. split; [exact N0|].
      set (D := 2 ^ (- e')) in *.
      destruct Hme as [[He Hm'] | [He Hm']].
      + assert (Es : 2 ^ s = D * 2 ^ k).
        { subst D. rewrite <- Z.pow_add_r by lia. f_equal. lia. }
        rewrite Es, <- Hm'.
        replace (n * (D * 2 ^ k) - Z.pos m' * 2 ^ k * 100000000)
          with ((n * D - Zpos m' * 100000000) * 2 ^ k) by ring.
        rewrite Z.abs_mul, (Z.abs_eq (2 ^ k)) by lia. nia.
      + assert (Es : 2 ^ s = 2 * D * 2 ^ k).
        { subst D. rewrite <- Z.pow_succ_r, <- Z.pow_add_r by lia.
          f_equal. lia. }
        rewrite Es, <- Hm'.
        replace (n * (2 * D * 2 ^ k) - 2 * Z.pos m' * 2 ^ k * 100000000)
          with ((n * D - Zpos m' * 100000000) * (2 * 2 ^ k)) by ring.
        rewrite Z.abs_mul, (Z.abs_eq (2 * 2 ^ k)) by lia. nia. }
  destruct Hn as (n & Hf & Hn0 & HU).
  exists n. split; [exact Hf|]. split; [exact Hn0|].
  set (U := n * 2 ^ s - m * 2 ^ k * 100000000) in *.
  set (T := m * (1000000 * 2 ^ k) - Zpos a * 2 ^ s) in *.
  assert (HX : (n - 100 * Zpos a) * 2 ^ s = U + 100 * T)
    by (subst U T; ring).
  assert (Habs : Z.abs (n - 100 * Zpos a) * 2 ^ s = Z.abs (U + 100 * T)).
  { rewrite <- HX, Z.abs_mul, (Z.abs_eq (2 ^ s)) by lia. reflexivity. }
  apply Z.mul_le_mono_pos_r with (p := 2 ^ s); [exact Hps|].
  rewrite <- Z.mul_assoc, Habs.
  set (BK := 1000000 * 2 ^ k) in *. set (AS := Zpos a * 2 ^ s) in *.
  replace ((2 ^ 53 + 200 * Z.pos a) * 2 ^ s)
    with (2 ^ 53 * 2 ^ s + 200 * AS) by (subst AS; ring).
  assert (E54 : 2 ^ 54 = 4 * 2 ^ 52) by reflexivity.
  assert (E53 : 2 ^ 53 = 2 * 2 ^ 52) by reflexivity.
  assert (P52 : 0 < 2 ^ 52) by reflexivity.
  rewrite E54, E53.
  set (P := 2 ^ 52) in *. set (S2 := 2 ^ s) in *.
  clearbody P S2 BK AS U T. nia.
Qed.

End RateAccuracy.

(** X11: beyond the range where it is exact, [fee_rate] stays close to
    the quotient.  For every record of a returned report built from an
    entry whose [fee_per_millionth] is not negative, [fee_rate] is the
    numeral of [n / 10^8] for an integer [n] with
    [2^54 * |n - 100 * fee_per_millionth| <= 2^53 + 200 * fee_per_millionth]:
    the printed value is off by at most half a unit of the eighth
    decimal plus [2^-53] of the quotient. *)
Theorem fee_rate_accuracy
  (rpc : LightningRpc) (our_nodeid : string) (tz : Py.zone) (now : Py.datetime)
  (r : report) (e : fee_entry) :
  feereport rpc our_nodeid tz now = Ok r -> In e (channel_fees r) ->
  exists ch d,
    In ch (listfunds rpc) /\
    In d (listchannels rpc (short_channel_id ch)) /\
    source d = our_nodeid /\ entry ch d = Ok e /\
    (0 <= fee_per_millionth d ->
     exists n,
       decimal8 (fee_rate e) (n # 100000000) /\
       2 ^ 54 * Z.abs (n - 100 * fee_per_millionth d)
       <= 2 ^ 53 + 200 * fee_per_millionth d).
Proof.
  intros Hr Hin.
  destruct (emitted _ _ _ _ _ _ Hr Hin) as (ch & d & Hch & Hd & Hsrc & He).
  exists ch, d. repeat split; try assumption.
  intros Hppm.
  destruct (entry_Ok _ _ _ He) as (out & rate & _ & Hrate & ->).
  cbn [fee_rate].
  destruct (fee_per_millionth d) as [|a|a]; try lia.
  - injection Hrate as <-. exists 0.
    split; [exact (fixed_decimal8 0 ltac:(lia)) | discriminate].
  - destruct (format_rate_error a rate Hrate) as (n & Hf & Hn & Hb).
    exists n. rewrite Hf. split; [exact (fixed_decimal8 n Hn) | exact Hb].
Qed.

Lemma fee_rate_accuracy_witness :
  exists r e n,
    feereport {| listfunds := [example_channel];
                 listchannels := fun _ =>
                   [ {| source := "02aa"; base_fee_millisatoshi := 1000;
                        fee_per_millionth := 67108864000004 |} ];
                 listforwards := [] |} "02aa" Py.utc 0 = Ok r /\
    In e (channel_fees r) /\
    0 <= 67108864000004 /\
    decimal8 (fee_rate e) (n # 100000000) /\
    2 ^ 54 * Z.abs (n - 100 * 67108864000004)
    <= 2 ^ 53 + 200 * 67108864000004.
Proof.
  assert (H1 : feereport
    {| listfunds := [example_channel];
       listchannels := fun _ =>
         [ {| source := "02aa"; base_fee_millisatoshi := 1000;
              fee_per_millionth := 67108864000004 |} ];
       listforwards := [] |} "02aa" Py.utc 0
    = Ok {| channel_fees :=
              [ {| chan_point := "abcd:0"; base_fee_msat := "1000";
                   fee_per_mil := "67108864000004";
                   fee_rate := "67108864.00000399" |} ];
            day_fee_sum := "0"; week_fee_sum := "0"; month_fee_sum := "0" |})
    by (vm_compute; reflexivity).
  assert (H2 : In {| chan_point := "abcd:0"; base_fee_msat := "1000";
                     fee_per_mil := "67108864000004";
                     fee_rate := "67108864.00000399" |}
                 [ {| chan_point := "abcd:0"; base_fee_msat := "1000";
                      fee_per_mil := "67108864000004";
                      fee_rate := "67108864.00000399" |} ])
    by (left; reflexivity).
  assert (H3 : 0 <= 67108864000004) by discriminate.
  destruct (fee_rate_accuracy _ _ _ _ _ _ H1 H2)
    as (ch & d & _ & Hd & _ & _ & Hacc).
  destruct Hd as [<- | []].
  destruct (Hacc H3) as (n & Hv & Hb).
  eexists. eexists. exists n.
  split; [exact H1|]. split; [exact H2|]. split; [exact H3|].
  split; [exact Hv | exact Hb].
Defined.

(** ** When the call returns *)

Section Returns.

Variable rpc : LightningRpc.
Variable our_nodeid : string.

Lemma scan_found ch ds found :
  scan our_nodeid ch ds = Ok found ->
  has_ours our_nodeid ds = match found with Some _ => true | None => false end.
Proof.
  induction ds as [|d ds IH]; simpl.
  - intros [= <-]. reflexivity.
  - destruct (String.eqb (source d) our_nodeid); simpl.
    + intros H. apply bind_Ok in H. destruct H as (e & _ & [= <-]).
      reflexivity.
    + exact IH.
Qed.

Lemma collect_count chs : forall l,
  collect rpc our_nodeid chs [] = Ok l ->
  List.length l =
  List.length
    (filter (fun ch => has_ours our_nodeid
                         (listchannels rpc (short_channel_id ch))) chs).
Proof.
  induction chs as [|ch chs IH]; intros l H.
  - injection H as <-. reflexivity.
  - rewrite collect_cons in H.
    apply bind_Ok in H. destruct H as (found & Hf & H).
    apply bind_Ok in H. destruct H as (l' & Hl' & H).
    injection H as <-. specialize (IH l' Hl').
    cbn [filter]. rewrite (scan_found _ _ _ Hf).
    destruct found; simpl; lia.
Qed.

Lemma truediv_million_fits a :
  Z.abs a < 2 ^ 1000 -> exists q, Py.truediv a 1000000 = Ok q.
Proof.
  intros Ha. destruct a as [|a|a].
  - eexists. reflexivity.
  - rewrite truediv_pos_normal by exact small_1000000.
    destruct (truediv_pos_fits 1000000 a false ltac:(lia)) as (m & e & ->).
    eexists. reflexivity.
  - rewrite truediv_neg_normal by exact small_1000000.
    destruct (truediv_pos_fits 1000000 a true ltac:(lia)) as (m & e & ->).
    eexists. reflexivity.
Qed.

Lemma entry_returns ch d :
  funding_output ch <> None \/
  (2 <= occurrences "x" (short_channel_id ch))%nat ->
  Z.abs (fee_per_millionth d) < 2 ^ 1000 ->
  exists e, entry ch d = Ok e.
Proof.
  intros Hch Hd.
  destruct (entry_outcome ch d) as [H | [H | (_ & Hn & Ho)]].
  - exact H.
  - exfalso. unfold entry in H.
    destruct (funding_output_str ch) eqn:F;
      [|apply funding_output_str_error in F; destruct F as (-> & _);
        discriminate H].
    cbn [bind] in H.
    destruct (truediv_million_fits _ Hd) as (q & Hq).
    rewrite Hq in H. discriminate.
  - exfalso. destruct Hch as [Hch | Hch]; [congruence | lia].
Qed.

Lemma collect_returns chs :
  Forall (fun ch => funding_output ch <> None \/
                    (2 <= occurrences "x" (short_channel_id ch))%nat) chs ->
  (forall ch d, In ch chs ->
                In d (listchannels rpc (short_channel_id ch)) ->
                Z.abs (fee_per_millionth d) < 2 ^ 1000) ->
  exists l, collect rpc our_nodeid chs [] = Ok l.
Proof.
  induction 1 as [|ch chs Hch _ IH]; intros Hppm.
  - eexists. reflexivity.
  - rewrite collect_cons.
    destruct IH as (l & Hl).
    { intros c d Hc Hd. apply (Hppm c d); [right|]; assumption. }
    rewrite Hl. cbn [bind].
    destruct (scan_cases our_nodeid (listchannels rpc (short_channel_id ch)))
      as [F | (pre & d & post & E & Hpre & Hd)].
    + rewrite scan_foreign by exact F. eexists. reflexivity.
    + rewrite E, scan_first by assumption.
      destruct (entry_returns ch d Hch) as (e & ->).
      { apply (Hppm ch d); [left; reflexivity|].
        rewrite E. apply in_or_app. right. left. reflexivity. }
      eexists. reflexivity.
Qed.

End Returns.

(** X14: the call returns a report whenever every funded channel
    carries [funding_output] or has at least two ["x"] in its short
    channel id, every [fee_per_millionth] of the listings of the funded
    channels is below [2^1000] in absolute value, and the fees and the
    number of the forwards fit 64 bits. *)
Theorem feereport_returns
  (rpc : LightningRpc) (our_nodeid : string)
  (tz : Py.zone) (now : Py.datetime) :
  Forall (fun ch => funding_output ch <> None \/
                    (2 <= occurrences "x" (short_channel_id ch))%nat)
    (listfunds rpc) ->
  (forall ch d, In ch (listfunds rpc) ->
                In d (listchannels rpc (short_channel_id ch)) ->
                Z.abs (fee_per_millionth d) < 2 ^ 1000) ->
  Forall (fun f => Z.abs (fee f) < 2 ^ 64) (listforwards rpc) ->
  Z.of_nat (List.length (listforwards rpc)) < 2 ^ 64 ->
  exists r, feereport rpc our_nodeid tz now = Ok r.
Proof.
  intros Hch Hppm Hfee Hlen.
  destruct (collect_returns rpc our_nodeid _ Hch Hppm) as (l & Hl).
  destruct (fee_sums_fit rpc tz now Hfee Hlen) as (Hd & Hw & Hm).
  destruct (sat_str_fits _ Hd) as [day Eday].
  destruct (sat_str_fits _ Hw) as [week Eweek].
  destruct (sat_str_fits _ Hm) as [month Emonth].
  unfold feereport. rewrite Hl. cbn [bind]. cbv zeta.
  rewrite Eday, Eweek, Emonth. eexists. reflexivity.
Qed.

Lemma feereport_returns_witness :
  exists r,
    feereport
      {| listfunds :=
           [example_channel;
            {| short_channel_id := "bad"; funding_txid := "ef01";
               funding_output := Some 1 |}];
         listchannels := fun _ => [example_detail "02aa"];
         listforwards := [settled_at 1999 (1700000000 # 1)] |}
      "02aa" Py.utc 1700003600000000 = Ok r.
Proof.
  apply feereport_returns.
  - constructor; [right; simpl; lia|].
    constructor; [left; discriminate | constructor].
  - intros ch d _ Hd. destruct Hd as [<- | []]. reflexivity.
  - constructor; [reflexivity | constructor].
  - reflexivity.
Defined.

(** X15: a returned report has exactly one record for each funded
    channel whose listing has an entry sourced by our node, and none for
    the others: [channel_fees] is as long as the list of those
    channels. *)
Theorem one_record_per_matching_channel
  (rpc : LightningRpc) (our_nodeid : string) (tz : Py.zone) (now : Py.datetime)
  (r : report) :
  feereport rpc our_nodeid tz now = Ok r ->
  List.length (channel_fees r) =
  List.length
    (filter (fun ch => has_ours our_nodeid
                         (listchannels rpc (short_channel_id ch)))
            (listfunds rpc)).
Proof.
  intros Hr. apply feereport_Ok in Hr. destruct Hr as [Hc _].
  exact (collect_count rpc our_nodeid _ _ Hc).
Qed.

Lemma one_record_per_matching_channel_witness :
  feereport
    {| listfunds :=
         [example_channel;
          {| short_channel_id := "1x2x3"; funding_txid := "ef01";
             funding_output := None |};
          example_channel];
       listchannels := fun scid =>
         if String.eqb scid "1x2x3" then [example_detail "03bb"]
         else [example_detail "03bb"; example_detail "02aa";
               example_detail "02aa"];
       listforwards := [] |} "02aa" Py.utc 0
  = Ok {| channel_fees := [example_entry; example_entry];
          day_fee_sum := "0"; week_fee_sum := "0"; month_fee_sum := "0" |} /\
  List.length [example_entry; example_entry] = 2%nat.
Proof.
  assert (H : feereport
    {| listfunds :=
         [example_channel;
          {| short_channel_id := "1x2x3"; funding_txid := "ef01";
             funding_output := None |};
          example_channel];
       listchannels := fun scid =>
         if String.eqb scid "1x2x3" then [example_detail "03bb"]
         else [example_detail "03bb"; example_detail "02aa";
               example_detail "02aa"];
       listforwards := [] |} "02aa" Py.utc 0
    = Ok {| channel_fees := [example_entry; example_entry];
            day_fee_sum := "0"; week_fee_sum := "0"; month_fee_sum := "0" |})
    by (vm_compute; reflexivity).
  split; [exact H|].
  exact (one_record_per_matching_channel _ _ _ _ _ H).
Defined.

(** ** What the report depends on *)

Section Dependence.

Variable our_nodeid : string.

Lemma collect_agree rpc rpc' chs : forall acc,
  (forall ch, In ch chs ->
     scan our_nodeid ch (listchannels rpc (short_channel_id ch))
     = scan our_nodeid ch (listchannels rpc' (short_channel_id ch))) ->
  collect rpc our_nodeid chs acc = collect rpc' our_nodeid chs acc.
Proof.
  induction chs as [|ch chs IH]; intros acc H; [reflexivity|].
  cbn [collect]. rewrite (H ch) by (left; reflexivity).
  destruct (scan our_nodeid ch _); cbn [bind]; [|reflexivity].
  apply IH. intros c Hc. apply H. right. exact Hc.
Qed.

Lemma scan_filter ch ds :
  scan our_nodeid ch
    (filter (fun d => String.eqb (source d) our_nodeid) ds)
  = scan our_nodeid ch ds.
Proof.
  induction ds as [|d ds IH]; [reflexivity|].
  cbn [filter scan].
  destruct (String.eqb (source d) our_nodeid) eqn:E.
  - cbn [scan]. rewrite E. reflexivity.
  - exact IH.
Qed.

End Dependence.

(** X16: the listings are consulted at the short channel ids of the
    funded channels and nowhere else: two nodes with the same funded
    channels and forwards whose listings agree at those ids give the
    same report. *)
Theorem listings_consulted_at_funded_ids
  (our_nodeid : string) (chs : list channel) (fw : list forward)
  (lc lc' : string -> list detail) (tz : Py.zone) (now : Py.datetime) :
  (forall ch, In ch chs -> lc (short_channel_id ch) = lc' (short_channel_id ch)) ->
  feereport {| listfunds := chs; listchannels := lc; listforwards := fw |}
            our_nodeid tz now
  = feereport {| listfunds := chs; listchannels := lc'; listforwards := fw |}
              our_nodeid tz now.
Proof.
  intros H. unfold feereport. cbn [listfunds].
  rewrite (collect_agree our_nodeid _
             {| listfunds := chs; listchannels := lc'; listforwards := fw |}
             chs []).
  - reflexivity.
  - intros ch Hch. cbn [listchannels]. rewrite (H ch Hch). reflexivity.
Qed.

Lemma listings_consulted_at_funded_ids_witness :
  (forall ch, In ch [example_channel] ->
     (fun _ : string => [example_detail "02aa"]) (short_channel_id ch)
     = (fun scid : string =>
          if String.eqb scid "700000x1x0" then [example_detail "02aa"]
          else []) (short_channel_id ch)) /\
  feereport {| listfunds := [example_channel];
               listchannels := fun scid =>
                 if String.eqb scid "700000x1x0" then [example_detail "02aa"]
                 else [];
               listforwards := [] |} "02aa" Py.utc 0
  = Ok {| channel_fees := [example_entry]; day_fee_sum := "0";
          week_fee_sum := "0"; month_fee_sum := "0" |}.
Proof.
  assert (H : forall ch, In ch [example_channel] ->
     (fun _ : string => [example_detail "02aa"]) (short_channel_id ch)
     = (fun scid : string =>
          if String.eqb scid "700000x1x0" then [example_detail "02aa"]
          else []) (short_channel_id ch)).
  { intros ch [<- | []]. reflexivity. }
  split; [exact H|].
  rewrite <- (listings_consulted_at_funded_ids "02aa" [example_channel] []
                _ _ Py.utc 0 H).
  vm_compute. reflexivity.
Defined.

(** X17: the entries of a listing whose source is another node never
    influence the report: removing them from every listing leaves the
    report, or the exception, unchanged. *)
Theorem foreign_entries_ignored
  (our_nodeid : string) (chs : list channel) (fw : list forward)
  (lc : string -> list detail) (tz : Py.zone) (now : Py.datetime) :
  feereport
    {| listfunds := chs;
       listchannels := fun scid =>
         filter (fun d => String.eqb (source d) our_nodeid) (lc scid);
       listforwards := fw |} our_nodeid tz now
  = feereport {| listfunds := chs; listchannels := lc; listforwards := fw |}
              our_nodeid tz now.
Proof.
  unfold feereport. cbn [listfunds].
  rewrite (collect_agree our_nodeid _
             {| listfunds := chs; listchannels := lc; listforwards := fw |}
             chs []).
  - reflexivity.
  - intros ch _. cbn [listchannels]. apply scan_filter.
Qed.
